(** * The third-party analytics controller: resource-change tracking pipeline

    A shallow embedding of [ThirdPartyAnalyticsController] (package
    [controller]): the watch registry and the informers built from it, the
    event handlers, the work queue the events go through, the worker loop
    and the tracker that issues the outbound call.

    Conventions of the embedding.
    - Go strings are [string]; a Go [error] is its message, [option error]
      being [nil] or an error.
    - [*analyticsEvent] is an address into a heap of event structs; the value
      stored in the queue is the pointer, as in the source.
    - Code that mutates the controller, the heap, the log or the network runs
      in the monad [M]: a state transformer whose result is a value, a panic,
      or a goroutine parked inside a blocking call.
    - A [for] loop without exit condition is run with fuel; a result that
      says "still running" after every amount of fuel is a loop that never
      returns. *)

From stdpp Require Import base strings gmap list sets.
From stdpp Require Import pretty.
From Stdlib Require Import ZArith Lia Ascii.

Open Scope string_scope.

#[local] Set Warnings "-clear-no-such-hyp".

(** ** Events and their heap *)

(** [type analyticsEvent struct { objectName, action, namespace string }] *)
Record analyticsEvent := mkEvent {
  objectName : string;
  action : string;
  namespace : string;
}.

Global Instance analyticsEvent_eq_dec : EqDecision analyticsEvent.
Proof. solve_decision. Defined.

(** A pointer is the index of the struct in the heap; structs are never
    freed or overwritten (the source only allocates and reads them). *)
Definition ptr := nat.

(** The dynamic values ([interface{}]) a work queue can hold: a pointer to an
    event, which is all this package ever adds, or a value of another type.
    Go compares two interface values holding pointers by address. *)
Inductive item :=
  | EventPtr (p : ptr)
  | Other (v : string).

Global Instance item_eq_dec : EqDecision item.
Proof. solve_decision. Defined.

Global Instance item_countable : Countable item :=
  inj_countable'
    (λ i, match i with EventPtr p => inl p | Other v => inr v end)
    (λ s, match s with inl p => EventPtr p | inr v => Other v end)
    (λ i, match i with EventPtr _ => eq_refl | Other _ => eq_refl end).

(** ** The work queue *)

Module workqueue.
Section queue.
Context `{Countable T}.

(** Modelled from the spec: the coalescing queue ([workqueue.Type] of the
    Kubernetes utilities, whose source is not part of the files at hand).
    Its state is the three sets of section 3: the ordered queued items,
    the in-flight items and the items marked dirty while in flight, plus
    the shutdown flag.  Items are compared with the equality of [T]. *)
Record Queue := mkQueue {
  queued : list T;
  inFlight : gset T;
  dirty : gset T;
  shuttingDown : bool;
}.

(** Modelled from the spec: [workqueue.New], an empty queue. *)
Definition New : Queue :=
  {| queued := []; inFlight := ∅; dirty := ∅; shuttingDown := false |}.

(** Modelled from the spec: [Add] inserts the item if it is not already
    queued; an in-flight item is marked dirty instead; after shutdown
    nothing can be added. *)
Definition Add (x : T) (q : Queue) : Queue :=
  if shuttingDown q then q
  else if bool_decide (x ∈ queued q) then q
  else if bool_decide (x ∈ inFlight q) then
    {| queued := queued q; inFlight := inFlight q;
       dirty := {[x]} ∪ dirty q; shuttingDown := shuttingDown q |}
  else
    {| queued := queued q ++ [x]; inFlight := inFlight q;
       dirty := dirty q; shuttingDown := shuttingDown q |}.

(** What a call of [Get] does: hands out an item, reports shutdown, or
    keeps the caller waiting. *)
Inductive GetResult :=
  | Got (x : T) (q' : Queue)
  | ShutDown
  | Wait.

(** Modelled from the spec: [Get] moves the first queued item to the
    in-flight set; on an empty queue it reports shutdown when the queue is
    shutting down (queued items are drained first) and blocks otherwise. *)
Definition Get (q : Queue) : GetResult :=
  match queued q with
  | x :: rest =>
      Got x {| queued := rest; inFlight := {[x]} ∪ inFlight q;
               dirty := dirty q; shuttingDown := shuttingDown q |}
  | [] => if shuttingDown q then ShutDown else Wait
  end.

(** Modelled from the spec: [Done] takes the item out of the in-flight
    set; if it was marked dirty meanwhile it goes back to the queue. *)
Definition Done (x : T) (q : Queue) : Queue :=
  if bool_decide (x ∈ dirty q) then
    {| queued := queued q ++ [x]; inFlight := inFlight q ∖ {[x]};
       dirty := dirty q ∖ {[x]}; shuttingDown := shuttingDown q |}
  else
    {| queued := queued q; inFlight := inFlight q ∖ {[x]};
       dirty := dirty q; shuttingDown := shuttingDown q |}.

(** Modelled from the spec: [Shutdown] sets the flag. *)
Definition Shutdown (q : Queue) : Queue :=
  {| queued := queued q; inFlight := inFlight q;
     dirty := dirty q; shuttingDown := true |}.
End queue.
Global Arguments Queue T {_ _}.
Global Arguments GetResult T {_ _}.
End workqueue.

(** ** Notified objects and their metadata *)

Definition error := string.

(** The part of [ObjectMeta] the controller reads. *)
Record ObjectMeta := mkMeta {
  Name : string;
  Namespace : string;
}.

(** The example object types of the registry ([objType]). *)
Inductive ObjType :=
  | Pod | ReplicationController | PersistentVolumeClaim | Secret | Service
  | DeploymentConfig | Route | Build | Template.

(** A notification payload is an [interface{}]: an API object, which carries
    metadata; the tombstone [cache.DeletedFinalStateUnknown{Key, Obj}] the
    informer delivers when it missed the deletion itself; or any other
    value. *)
Inductive Object :=
  | ApiObject (ty : ObjType) (m : ObjectMeta)
  | DeletedFinalStateUnknown (key : string) (obj : Object)
  | NonObject (v : string).

(** Modelled from the spec: [meta.Accessor] ("extracts namespace from the
    object's accessor metadata; ... if metadata access fails"), whose source
    is not part of the files at hand.  It returns Go's pair: the accessor and
    [nil], or a [nil] accessor and an error.  Only API objects have
    metadata; a tombstone is a plain struct and has none. *)
Definition Accessor (obj : Object) : option ObjectMeta * option error :=
  match obj with
  | ApiObject _ m => (Some m, None)
  | _ => (None, Some "object does not implement the Object interfaces")
  end.

(** The three callbacks of [framework.ResourceEventHandlerFuncs] and their
    arguments. *)
Inductive Notification :=
  | OnAdd (obj : Object)
  | OnUpdate (oldObj newObj : Object)
  | OnDelete (obj : Object).

(** ** The watch registry *)

(** [api.NamespaceAll] *)
Definition NamespaceAll : string := EmptyString.

Inductive Client := kubeClient | osClient.

(** The resource collection a list or watch function addresses.  All of them
    are obtained with a namespace argument except [Namespaces()], which the
    client offers for the whole cluster only. *)
Inductive Collection :=
  | Pods (ns : string)
  | ReplicationControllers (ns : string)
  | PersistentVolumeClaims (ns : string)
  | Secrets (ns : string)
  | Services (ns : string)
  | Namespaces
  | DeploymentConfigs (ns : string)
  | Routes (ns : string)
  | Builds (ns : string)
  | Templates (ns : string).

Inductive Verb := List | Watch.

(** A closure [func(options) { return client.Collection(ns).Verb(options) }]:
    the call it makes when invoked. *)
Record ApiCall := mkCall {
  client : Client;
  collection : Collection;
  verb : Verb;
}.

(** An entry of the [watches] table. *)
Record watchEntry := mkWatch {
  objType : ObjType;
  listFunc : ApiCall;
  watchFunc : ApiCall;
}.

Global Instance ObjType_eq_dec : EqDecision ObjType.
Proof. solve_decision. Defined.
Global Instance Client_eq_dec : EqDecision Client.
Proof. solve_decision. Defined.
Global Instance Collection_eq_dec : EqDecision Collection.
Proof. solve_decision. Defined.
Global Instance Verb_eq_dec : EqDecision Verb.
Proof. solve_decision. Defined.
Global Instance ApiCall_eq_dec : EqDecision ApiCall.
Proof. solve_decision. Defined.
Global Instance watchEntry_eq_dec : EqDecision watchEntry.
Proof. solve_decision. Defined.

(** The literal [watches] map of [NewThirdPartyAnalyticsController], entry by
    entry (the [namespace] entry does carry [&api.Service{}] in the
    source). *)
Definition watches : gmap string watchEntry :=
  list_to_map [
    ("pod",
      mkWatch Pod
        (mkCall kubeClient (Pods NamespaceAll) List)
        (mkCall kubeClient (Pods NamespaceAll) Watch));
    ("replication_controller",
      mkWatch ReplicationController
        (mkCall kubeClient (ReplicationControllers NamespaceAll) List)
        (mkCall kubeClient (ReplicationControllers NamespaceAll) Watch));
    ("pvclaim",
      mkWatch PersistentVolumeClaim
        (mkCall kubeClient (PersistentVolumeClaims NamespaceAll) List)
        (mkCall kubeClient (PersistentVolumeClaims NamespaceAll) Watch));
    ("secret",
      mkWatch Secret
        (mkCall kubeClient (Secrets NamespaceAll) List)
        (mkCall kubeClient (Secrets NamespaceAll) Watch));
    ("service",
      mkWatch Service
        (mkCall kubeClient (Services NamespaceAll) List)
        (mkCall kubeClient (Services NamespaceAll) Watch));
    ("namespace",
      mkWatch Service
        (mkCall kubeClient Namespaces List)
        (mkCall kubeClient Namespaces Watch));
    ("deployment",
      mkWatch DeploymentConfig
        (mkCall osClient (DeploymentConfigs NamespaceAll) List)
        (mkCall osClient (DeploymentConfigs NamespaceAll) Watch));
    ("route",
      mkWatch Route
        (mkCall osClient (Routes NamespaceAll) List)
        (mkCall osClient (Routes NamespaceAll) Watch));
    ("build",
      mkWatch Build
        (mkCall osClient (Builds NamespaceAll) List)
        (mkCall osClient (Builds NamespaceAll) Watch));
    ("template",
      mkWatch Template
        (mkCall osClient (Templates NamespaceAll) List)
        (mkCall osClient (Templates NamespaceAll) Watch))
  ].

(** The namespace argument of a collection, if it takes one. *)
Definition scope (c : Collection) : option string :=
  match c with
  | Pods ns | ReplicationControllers ns | PersistentVolumeClaims ns
  | Secrets ns | Services ns | DeploymentConfigs ns | Routes ns
  | Builds ns | Templates ns => Some ns
  | Namespaces => None
  end.

(** A call covers all namespaces when it is not narrowed to one of them:
    its namespace argument is [api.NamespaceAll], or the collection is the
    cluster-wide one. *)
Definition allNamespaces (c : ApiCall) : bool :=
  match scope (collection c) with
  | Some ns => bool_decide (ns = NamespaceAll)
  | None => true
  end.

(** ** Informers *)

(** A variable captured by a closure lives in a cell of the store; the
    closure holds the cell, not a copy of the value. *)
Definition loc := nat.

(** [framework.ResourceEventHandlerFuncs{AddFunc, UpdateFunc, DeleteFunc}]:
    the three function literals share one environment, the variable [name]
    of the enclosing loop (and [ctrl], which is the controller of the
    state). *)
Record ResourceEventHandlerFuncs := mkHandlers {
  captured_name : loc;
}.

(** [cache.ListWatch] *)
Record ListWatch := mkListWatch {
  ListFunc : ApiCall;
  WatchFunc : ApiCall;
}.

(** What [framework.NewInformer(lw, objType, resyncPeriod, h)] is given; the
    [*framework.Controller] it returns runs with exactly these. *)
Record Controller := mkController {
  listerWatcher : ListWatch;
  objectType : ObjType;
  resyncPeriod : Z;
  handlers : ResourceEventHandlerFuncs;
}.

Definition NewInformer (lw : ListWatch) (ty : ObjType) (resync : Z)
    (h : ResourceEventHandlerFuncs) : Controller :=
  mkController lw ty resync h.

(** ** The state the code runs in *)

(** [glog]: [glog.V(v).Infof] lines are kept with their verbosity level,
    [glog.Errorf] lines are always written. *)
Inductive LogLine :=
  | Infof (v : nat) (msg : string)
  | Errorf (msg : string).

(** What [ioutil.ReadAll(resp.Body)] gives. *)
Inductive Body :=
  | ReadOk (data : string)
  | ReadErr (err : error).

(** What [http.Get(url)] gives: an error when no response was obtained, or
    a response with any status code. *)
Inductive HttpResult :=
  | TransportError (err : error)
  | Response (status : Z) (body : Body).

(** The calls that leave the controller, in the order they were made. *)
Inductive Call :=
  | QueueAdd (x : item)
  | QueueGet (r : option item)
  | QueueDone (x : item)
  | HttpGet (url : string).

(** [type ThirdPartyAnalyticsController struct { controllers; queue }] *)
Record ThirdPartyAnalyticsController := mkCtrl {
  controllers : gmap string Controller;
  queue : workqueue.Queue item;
}.

Record State := mkState {
  ctrl : ThirdPartyAnalyticsController;
  heap : list analyticsEvent;      (* the allocated event structs *)
  vars : list string;              (* the cells of captured variables *)
  glog : list LogLine;
  history : list Call;
  net : nat → string → HttpResult; (* answer to the n-th request, to a url *)
}.

Definition set_ctrl (c : ThirdPartyAnalyticsController) (s : State) : State :=
  mkState c (heap s) (vars s) (glog s) (history s) (net s).
Definition set_queue (q : workqueue.Queue item) (s : State) : State :=
  set_ctrl (mkCtrl (controllers (ctrl s)) q) s.
Definition set_controllers (m : gmap string Controller) (s : State) : State :=
  set_ctrl (mkCtrl m (queue (ctrl s))) s.
Definition set_heap (h : list analyticsEvent) (s : State) : State :=
  mkState (ctrl s) h (vars s) (glog s) (history s) (net s).
Definition set_vars (v : list string) (s : State) : State :=
  mkState (ctrl s) (heap s) v (glog s) (history s) (net s).
Definition add_log (l : LogLine) (s : State) : State :=
  mkState (ctrl s) (heap s) (vars s) (glog s ++ [l]) (history s) (net s).
Definition add_call (c : Call) (s : State) : State :=
  mkState (ctrl s) (heap s) (vars s) (glog s) (history s ++ [c]) (net s).

(** The requests that went out so far. *)
Definition is_request (c : Call) : bool :=
  match c with HttpGet _ => true | _ => false end.

Definition requests (s : State) : list Call := filter is_request (history s).

(** A state with nothing allocated, logged or sent, and a fresh controller
    struct. *)
Definition boot (n : nat → string → HttpResult) : State :=
  mkState (mkCtrl ∅ workqueue.New) [] [] [] [] n.

(** ** The monad of effects *)

(** A computation ends with a value, with a panic unwinding the goroutine,
    or does not end yet: the goroutine is parked in a blocking call. *)
Inductive Res (A : Type) :=
  | Val (a : A) (s : State)
  | Panic (msg : string) (s : State)
  | Parked (s : State).
Global Arguments Val {A} a s.
Global Arguments Panic {A} msg s.
Global Arguments Parked {A} s.

Definition M (A : Type) : Type := State → Res A.

Global Instance M_ret : MRet M := λ A a s, Val a s.
Global Instance M_bind : MBind M := λ A B f m s,
  match m s with
  | Val a s' => f a s'
  | Panic msg s' => Panic msg s'
  | Parked s' => Parked s'
  end.

Definition modify (f : State → State) : M unit := λ s, Val tt (f s).
Definition panic {A} (msg : string) : M A := λ s, Panic msg s.

Definition nil_dereference : string :=
  "runtime error: invalid memory address or nil pointer dereference".

(** [defer d] around the rest of a function body: [d] runs when the body
    returns and also when it panics, before the panic propagates. *)
Definition defer {A} (d : M unit) (body : M A) : M A := λ s,
  match body s with
  | Val a s' => (d ;; mret a) s'
  | Panic msg s' =>
      match d s' with
      | Val _ s'' => Panic msg s''
      | Panic msg' s'' => Panic msg' s''
      | Parked s'' => Parked s''
      end
  | Parked s' => Parked s'
  end.

(** *** Logging, heap, variables, queue *)

Definition logInfof (v : nat) (msg : string) : M unit := modify (add_log (Infof v msg)).
Definition logErrorf (msg : string) : M unit := modify (add_log (Errorf msg)).

(** [func newEvent(objName, action, namespace string) *analyticsEvent]:
    [&analyticsEvent{...}] allocates a new struct and returns its address. *)
Definition newEvent (objName action namespace : string) : M ptr := λ s,
  Val (length (heap s)) (set_heap (heap s ++ [mkEvent objName action namespace]) s).

(** Reading a field through a pointer; a pointer to nothing panics. *)
Definition deref (p : ptr) : M analyticsEvent := λ s,
  match heap s !! p with
  | Some e => Val e s
  | None => Panic nil_dereference s
  end.

Definition allocVar (v : string) : M loc := λ s,
  Val (length (vars s)) (set_vars (vars s ++ [v]) s).
Definition writeVar (l : loc) (v : string) : M unit :=
  modify (λ s, set_vars (<[l := v]> (vars s)) s).
Definition readVar (l : loc) : M string := λ s,
  Val (default EmptyString (vars s !! l)) s.

(** [c.queue.Add(x)] *)
Definition queueAdd (x : item) : M unit :=
  modify (λ s, add_call (QueueAdd x) (set_queue (workqueue.Add x (queue (ctrl s))) s)).

(** [c.queue.Get()]: [Some obj] is Go's [(obj, false)], [None] is
    [(nil, true)]; on an empty queue that is not shutting down the caller
    stays blocked. *)
Definition queueGet : M (option item) := λ s,
  match workqueue.Get (queue (ctrl s)) with
  | workqueue.Got x q' => Val (Some x) (add_call (QueueGet (Some x)) (set_queue q' s))
  | workqueue.ShutDown => Val None (add_call (QueueGet None) s)
  | workqueue.Wait => Parked s
  end.

(** [c.queue.Done(x)] *)
Definition queueDone (x : item) : M unit :=
  modify (λ s, add_call (QueueDone x) (set_queue (workqueue.Done x (queue (ctrl s))) s)).

(** ** Enqueueing and the event handlers *)

(** [func (c *ThirdPartyAnalyticsController) enqueue(objName, action, namespace string)] *)
Definition enqueue (objName action namespace : string) : M unit :=
  logInfof 3 ("Enqueueing for tracking " +:+ objName +:+ " " +:+ action +:+ " " +:+ namespace);;
  e ← newEvent objName action namespace;
  queueAdd (EventPtr e).

(** [meta.GetNamespace()] on the accessor [Accessor] returned; calling a
    method on the [nil] interface value panics. *)
Definition GetNamespace (meta : option ObjectMeta) : M string :=
  match meta with
  | Some m => mret (Namespace m)
  | None => panic nil_dereference
  end.

(** [AddFunc: func(obj interface{})].  The error branch logs and falls
    through to the call of [enqueue], whose arguments are evaluated first. *)
Definition AddFunc (h : ResourceEventHandlerFuncs) (obj : Object) : M unit :=
  let '(meta, err) := Accessor obj in
  (if err is Some e then logErrorf ("object has no meta: " +:+ e) else mret tt);;
  name ← readVar (captured_name h);
  ns ← GetNamespace meta;
  enqueue name "add" ns.

(** [UpdateFunc: func(oldObj, newObj interface{})] *)
Definition UpdateFunc (h : ResourceEventHandlerFuncs) (oldObj newObj : Object) : M unit :=
  let '(meta, err) := Accessor newObj in
  (if err is Some e then logErrorf ("object has no meta: " +:+ e) else mret tt);;
  name ← readVar (captured_name h);
  ns ← GetNamespace meta;
  enqueue name "update" ns.

(** [unk, ok := obj.(cache.DeletedFinalStateUnknown); if ok { obj = unk.Obj }] *)
Definition unwrap (obj : Object) : Object :=
  match obj with
  | DeletedFinalStateUnknown _ inner => inner
  | _ => obj
  end.

(** [DeleteFunc: func(obj interface{})] *)
Definition DeleteFunc (h : ResourceEventHandlerFuncs) (obj : Object) : M unit :=
  let obj := unwrap obj in
  let '(meta, err) := Accessor obj in
  (if err is Some e then logErrorf ("object has no meta: " +:+ e) else mret tt);;
  name ← readVar (captured_name h);
  ns ← GetNamespace meta;
  enqueue name "delete" ns.

(** The informer calling the handler that matches the notification. *)
Definition handle (h : ResourceEventHandlerFuncs) (n : Notification) : M unit :=
  match n with
  | OnAdd obj => AddFunc h obj
  | OnUpdate oldObj newObj => UpdateFunc h oldObj newObj
  | OnDelete obj => DeleteFunc h obj
  end.

(** A notification reaching the watcher registered under [kind]. *)
Definition notify (kind : string) (n : Notification) : M unit := λ s,
  match controllers (ctrl s) !! kind with
  | Some c => handle (handlers c) n s
  | None => Val tt s
  end.

(** ** Construction *)

Fixpoint forEach {A} (l : list A) (body : A → M unit) : M unit :=
  match l with
  | [] => mret tt
  | x :: rest => body x ;; forEach rest body
  end.

(** The body of [for name, watch := range watches], with [name] the cell of
    the loop variable: the key is assigned to the variable, the informer is
    built with function literals that refer to that variable, and the
    controller is stored under the variable's current value. *)
Definition registerWatch (name : loc) (kv : string * watchEntry) : M unit :=
  writeVar name kv.1;;
  let watch := kv.2 in
  let c := NewInformer (mkListWatch (listFunc watch) (watchFunc watch))
                       (objType watch) 0 (mkHandlers name) in
  key ← readVar name;
  modify (λ s, set_controllers (<[key := c]> (controllers (ctrl s))) s).

(** [func NewThirdPartyAnalyticsController(kubeClient, osClient)].

    Go leaves the order in which [range] visits a map open: [order] is the
    order of this run, a permutation of the entries of [watches].  The
    source is built without a [go] directive that asks for the loop
    variables of Go 1.22: the variables of a [for ... range] clause are
    declared once for the whole loop, so every function literal created in
    the loop captures the same variable [name]. *)
Definition NewThirdPartyAnalyticsController (order : list (string * watchEntry)) : M unit :=
  modify (set_ctrl (mkCtrl ∅ workqueue.New));;
  name ← allocVar EmptyString;
  forEach order (registerWatch name).

(** The entries of [watches] in the order the source lists them. *)
Definition source_order : list (string * watchEntry) :=
  omap (λ k, (k,.) <$> watches !! k)
    ["pod"; "replication_controller"; "pvclaim"; "secret"; "service";
     "namespace"; "deployment"; "route"; "build"; "template"].

(** ** Run *)

(** The goroutines [Run] starts. *)
Inductive Task :=
  | WatchTask (kind : string) (c : Controller)   (* [go c.Run(stopCh)] *)
  | WorkerTask.                                  (* [go wait.Until(c.worker, time.Second, stopCh)] *)

Definition newline : string := String "010"%char EmptyString.

(** [range c.controllers] *)
Definition registered : M (list (string * Controller)) := λ s,
  Val (map_to_list (controllers (ctrl s))) s.

(** [func (c *ThirdPartyAnalyticsController) Run(stopCh, workers int)]:
    returns at once with the goroutines it started. *)
Definition Run (workers : Z) : M (list Task) :=
  logInfof 5 ("Starting ThirdPartyAnalyticsController" +:+ newline);;
  cs ← registered;
  forEach cs (λ kc, logInfof 5 ("Starting watch for " +:+ kc.1));;
  mret (((λ kc, WatchTask kc.1 kc.2) <$> cs)
        ++ replicate (Z.to_nat workers) WorkerTask)%list.

(** ** The tracker *)

(** Functions of Go's standard library the tracker relies on:
    [strings.ToLower] and [url.Values.Encode]. *)
Class GoLib := {
  ToLower : string → string;
  Encode : gmap string (list string) → string;
}.

(** [fmt.Sprintf(format, arg)] for a format whose only verb is one [%s]. *)
Fixpoint Sprintf1 (format arg : string) : string :=
  match format with
  | EmptyString => EmptyString
  | String "%" (String "s" rest) => arg +:+ rest
  | String c rest => String c (Sprintf1 rest arg)
  end.

(** [url.Values.Add] *)
Definition urlAdd (key value : string) (v : gmap string (list string)) :
    gmap string (list string) :=
  <[key := (default [] (v !! key) ++ [value])%list]> v.

(** [http.Get(url)]: the request goes out and the network answers. *)
Definition httpGet (url : string) : M HttpResult := λ s,
  Val (net s (length (requests s)) url) (add_call (HttpGet url) s).

(** [type realAnalyticsTracker struct {}] *)
Inductive realAnalyticsTracker : Set := mkTracker.

Definition NewAnalyticsTracker : realAnalyticsTracker := mkTracker.

(** 2xx *)
Definition successStatus (status : Z) : bool :=
  bool_decide (200 ≤ status < 300)%Z.

Section tracker.
Context `{GoLib}.

(** [func (c *realAnalyticsTracker) TrackEvent(params, method, endpoint) error] *)
Definition TrackEvent (c : realAnalyticsTracker) (params : gmap string string)
    (method endpoint : string) : M (option error) :=
  let urlParams := map_fold urlAdd ∅ params in
  let encodedUrl := Encode urlParams in
  logInfof 3 ("Tracking data: " +:+ encodedUrl);;
  if decide (method = "GET") then
    r ← httpGet (Sprintf1 endpoint encodedUrl);
    match r with
    | TransportError err => mret (Some err)
    | Response _ body =>
        match body with
        | ReadErr err => mret (Some ("error tracking event: " +:+ err))
        | ReadOk _ => mret None
        end
    end
  else mret None.

Definition woopra : string := "http://www.woopra.com/track/ce?%s".

(** The literal [params] of [track]. *)
Definition trackParams (objName action namespace : string) : gmap string string :=
  {[ "host" := "dev.openshift.redhat.com";
     "event" := ToLower objName +:+ "_" +:+ ToLower action;
     "cv_email" := namespace;
     "cv_project_namespace" := namespace ]}.

(** [func (c *ThirdPartyAnalyticsController) track(objName, action, namespace string) error] *)
Definition track (objName action namespace : string) : M (option error) :=
  let tracker := NewAnalyticsTracker in
  let params := trackParams objName action namespace in
  err ← TrackEvent tracker params "GET" woopra;
  match err with
  | Some e => mret (Some ("Error sending track event: " +:+ e))
  | None => mret None
  end.

(** ** The worker *)

(** How a statement ends: normally, or with a [return] that leaves the
    function it is written in. *)
Inductive completion := Normal | Returned.

(** The function literal in the loop of [worker]. *)
Definition workerBody : M completion :=
  r ← queueGet;
  match r with
  | None => mret Returned                     (* [if quit { return }] *)
  | Some obj =>
      defer (queueDone obj)
        (match obj with
         | EventPtr p =>                       (* the type assertion holds *)
             e ← deref p;
             err ← track (objectName e) (action e) (namespace e);
             match err with
             | Some msg =>
                 logErrorf ("Error tracking event: " +:+ objectName e +:+ " "
                            +:+ action e +:+ " " +:+ namespace e +:+ " " +:+ msg)
             | None => mret tt
             end
         | Other _ => mret tt
         end;;
         mret Normal)
  end.

(** The statement [func() { ... }()]: a [return] inside leaves the literal,
    and the call statement completes normally in the function around
    it. *)
Definition callLiteral (body : M completion) : M completion :=
  body ;; mret Normal.

(** [for { stmt }] run for at most [fuel] rounds: [Some tt] when a round
    left the function, [None] when the loop is still going. *)
Fixpoint forever (fuel : nat) (stmt : M completion) : M (option unit) :=
  match fuel with
  | O => mret None
  | S n =>
      c ← stmt;
      match c with
      | Returned => mret (Some tt)
      | Normal => forever n stmt
      end
  end.

(** [func (c *ThirdPartyAnalyticsController) worker()] *)
Definition worker (fuel : nat) : M (option unit) :=
  forever fuel (callLiteral workerBody).
End tracker.

(** ** An instance of the library to run the model on examples *)

(** [strings.ToLower] on ASCII text: the letters A-Z are mapped, every other
    byte is kept. *)
Definition lowerAscii (c : ascii) : ascii :=
  let n := nat_of_ascii c in
  if (65 <=? n)%nat && (n <=? 90)%nat then ascii_of_nat (n + 32) else c.

Fixpoint lower (s : string) : string :=
  match s with
  | EmptyString => EmptyString
  | String c rest => String (lowerAscii c) (lower rest)
  end.

(** The pairs [key=value] joined with [&], for values that need no
    escaping. *)
Definition plainEncode (v : gmap string (list string)) : string :=
  String.concat "&"
    (mbind (M := list) (λ kv, (λ x, kv.1 +:+ "=" +:+ x) <$> kv.2) (map_to_list v)).

Definition asciiLib : GoLib := {| ToLower := lower; Encode := plainEncode |}.

(** Networks for the examples: the endpoint answers every request alike. *)
Definition net_ok : nat → string → HttpResult := λ _ _, Response 200 (ReadOk EmptyString).
Definition net_500 : nat → string → HttpResult := λ _ _, Response 500 (ReadOk "error").
Definition net_down : nat → string → HttpResult := λ _ _, TransportError "connection refused".

(** The state a computation ends in, whatever its result. *)
Definition final {A} (r : Res A) : State :=
  match r with
  | Val _ s | Panic _ s | Parked s => s
  end.

(** The event an item of the queue points to. *)
Definition event_at (s : State) (x : item) : option analyticsEvent :=
  match x with
  | EventPtr p => heap s !! p
  | Other _ => None
  end.

(** The items [Get] has handed out so far, and how many of them point to an
    event equal to [e]. *)
Definition yielded (s : State) : list item :=
  omap (λ c, match c with QueueGet r => r | _ => None end) (history s).

Definition deliveries (e : analyticsEvent) (s : State) : nat :=
  length (filter (λ x, event_at s x = Some e) (yielded s)).

(** [n] calls of [enqueue] with the same arguments. *)
Definition enqueueN (n : nat) (objName action namespace : string) : M unit :=
  forEach (replicate n tt) (λ _, enqueue objName action namespace).

(** The object a handler asks for metadata. *)
Definition payload (n : Notification) : Object :=
  match n with
  | OnAdd obj => obj
  | OnUpdate _ newObj => newObj
  | OnDelete obj => unwrap obj
  end.

(** The action a handler passes to [enqueue]. *)
Definition action_of (n : Notification) : string :=
  match n with
  | OnAdd _ => "add"
  | OnUpdate _ _ => "update"
  | OnDelete _ => "delete"
  end.

(** The methods and callbacks that run on a constructed controller. *)
Inductive Op :=
  | OpRun (workers : Z)
  | OpNotify (kind : string) (n : Notification)
  | OpEnqueue (objName action namespace : string)
  | OpTrack (objName action namespace : string)
  | OpWorker (fuel : nat).

Definition exec `{GoLib} (op : Op) (s : State) : State :=
  match op with
  | OpRun workers => final (Run workers s)
  | OpNotify kind n => final (notify kind n s)
  | OpEnqueue objName action namespace => final (enqueue objName action namespace s)
  | OpTrack objName action namespace => final (track objName action namespace s)
  | OpWorker fuel => final (worker fuel s)
  end.

(** Any interleaving of them, one after the other. *)
Definition execAll `{GoLib} (ops : list Op) (s : State) : State :=
  foldl (λ s op, exec op s) s ops.

(** An entry whose list and watch functions both cover all namespaces. *)
Definition entry_all_namespaces (w : watchEntry) : bool :=
  allNamespaces (listFunc w) && allNamespaces (watchFunc w).

(** The namespace argument the functions of the entry for a kind are
    written with: [api.NamespaceAll], except for the kind ["namespace"],
    whose collection takes none. *)
Definition expected_scope (kind : string) : option string :=
  if decide (kind = "namespace") then None else Some NamespaceAll.

Definition entry_scoped (kind : string) (w : watchEntry) : bool :=
  bool_decide (scope (collection (listFunc w)) = expected_scope kind)
  && bool_decide (scope (collection (watchFunc w)) = expected_scope kind).

(** The ten kinds of the registry. *)
Definition kinds : gset string :=
  {[ "pod"; "replication_controller"; "pvclaim"; "secret"; "service";
     "namespace"; "deployment"; "route"; "build"; "template" ]}.

(** ** Auxiliary definitions for the properties *)

(** The informer [registerWatch] builds for an entry. *)
Definition informer (name : loc) (w : watchEntry) : Controller :=
  NewInformer (mkListWatch (listFunc w) (watchFunc w)) (objType w) 0 (mkHandlers name).

(** One round of the loop as a state change. *)
Definition registered_one (name : loc) (s : State) (kv : string * watchEntry) : State :=
  set_controllers (<[kv.1 := informer name kv.2]> (controllers (ctrl s)))
    (set_vars (<[name := kv.1]> (vars s)) s).

(** The state the loop starts from: a fresh controller struct and the cell
    of [name]. *)
Definition before_loop (s : State) : State :=
  set_vars (vars s ++ [EmptyString]) (set_ctrl (mkCtrl ∅ workqueue.New) s).

(** A computation that leaves the map [controllers] as it found it, however
    it ends. *)
Definition keeps {A} (m : M A) : Prop :=
  ∀ s, controllers (ctrl (final (m s))) = controllers (ctrl s).

(** What [TrackEvent] returns for an answer of the network. *)
Definition reported (r : HttpResult) : option error :=
  match r with
  | TransportError err => Some err
  | Response _ (ReadErr err) => Some ("error tracking event: " +:+ err)
  | Response _ (ReadOk _) => None
  end.

Section requested.
Context `{GoLib}.

(** The url [TrackEvent] requests. *)
Definition requested (params : gmap string string) (endpoint : string) : string :=
  Sprintf1 endpoint (Encode (map_fold urlAdd ∅ params)).
End requested.

(** A queue in which nothing is in flight or dirty, and whose items are
    pointers to allocated events. *)
Record settled (s : State) : Prop := mkSettled {
  settled_open : workqueue.shuttingDown (queue (ctrl s)) = false;
  settled_inFlight : workqueue.inFlight (queue (ctrl s)) = ∅;
  settled_dirty : workqueue.dirty (queue (ctrl s)) = ∅;
  settled_queued : ∀ x, x ∈ workqueue.queued (queue (ctrl s)) →
                     ∃ p, x = EventPtr p ∧ (p < length (heap s))%nat;
}.

(** ** The caller, and auxiliary definitions for further properties *)

(** [func (c *MasterConfig) RunThirdPartyAnalyticsController(kubeClient, osClient)]
    of the master configuration: the controller is built and run with one
    worker ([utilwait.NeverStop] is the stop channel). *)
Definition RunThirdPartyAnalyticsController (order : list (string * watchEntry)) :
    M (list Task) :=
  NewThirdPartyAnalyticsController order ;;
  Run 1.

Definition is_worker (t : Task) : bool :=
  match t with WorkerTask => true | WatchTask _ _ => false end.

(** One call of [enqueue] per event of a list, in order. *)
Definition enqueueAll (es : list analyticsEvent) : M unit :=
  forEach es (λ e, enqueue (objectName e) (action e) (namespace e)).

(** A computation that moves every state to one related to it by [R],
    however it ends. *)
Definition respects (R : relation State) {A} (m : M A) : Prop :=
  ∀ s, R s (final (m s)).

(** The state changes the controller is made of. *)
Record step_closed (R : relation State) : Prop := mkStepClosed {
  step_log : ∀ l s, R s (add_log l s);
  step_call : ∀ c s, R s (add_call c s);
  step_alloc : ∀ e s, R s (set_heap (heap s ++ [e]) s);
  step_Add : ∀ x s, R s (set_queue (workqueue.Add x (queue (ctrl s))) s);
  step_Done : ∀ x s, R s (set_queue (workqueue.Done x (queue (ctrl s))) s);
  step_Get : ∀ x q' s,
    workqueue.Get (queue (ctrl s)) = workqueue.Got x q' → R s (set_queue q' s);
}.

(** The tasks [Run] returns for a map of controllers and a number of
    workers. *)
Definition tasks_of (m : gmap string Controller) (n : nat) : list Task :=
  (((λ kc, WatchTask kc.1 kc.2) <$> map_to_list m) ++ replicate n WorkerTask)%list.

(** The relations the methods and callbacks are shown to respect. *)

(** The events allocated so far stay at their addresses, unchanged. *)
Definition heap_grows : relation State :=
  λ s s', heap s `prefix_of` heap s'.

(** The shutdown flag of the queue stays as it is. *)
Definition same_shutdown : relation State :=
  λ s s', workqueue.shuttingDown (queue (ctrl s'))
          = workqueue.shuttingDown (queue (ctrl s)).

(** The captured variables stay as they are. *)
Definition same_vars : relation State :=
  λ s s', vars s' = vars s.

Section rounds.
Context `{GoLib}.

(** The url [track] requests for an event. *)
Definition track_url (e : analyticsEvent) : string :=
  requested (trackParams (objectName e) (action e) (namespace e)) woopra.

(** The lines a round of the worker writes for an event, given the answer
    of the network to its request. *)
Definition round_log (e : analyticsEvent) (r : HttpResult) : list LogLine :=
  Infof 3 ("Tracking data: "
           +:+ Encode (map_fold urlAdd ∅
                         (trackParams (objectName e) (action e) (namespace e))))
  :: match r with
     | TransportError err =>
         [Errorf ("Error tracking event: " +:+ objectName e +:+ " "
                  +:+ action e +:+ " " +:+ namespace e +:+ " "
                  +:+ "Error sending track event: " +:+ err)]
     | Response _ (ReadErr err) =>
         [Errorf ("Error tracking event: " +:+ objectName e +:+ " "
                  +:+ action e +:+ " " +:+ namespace e +:+ " "
                  +:+ "Error sending track event: "
                  +:+ "error tracking event: " +:+ err)]
     | Response _ (ReadOk _) => []
     end.
End rounds.

(** ** The master configuration: recycler and API installation

    The functions of [MasterConfig] (package [kubernetes]) that prepare the
    persistent volume recycler and install the API.  What they call in
    other packages is a field of [World]; [glog.Fatalf] ends the process
    and is an outcome; pods are records of the fields the functions read or
    write, with the rest of a struct kept in one opaque field. *)

Module master.

(** [kapi.SecurityContext], of which the recycler sets [RunAsUser]. *)
Record KSecurityContext := mkSecurityContext {
  RunAsUser : option Z;
}.

Record Container := mkContainer {
  Image : string;
  Command : list string;
  Args : list string;
  SecurityContext : option KSecurityContext;
  ImagePullPolicy : string;
  ContainerRest : string;            (* the fields the functions leave alone *)
}.

Record Pod := mkPod {
  Namespace : string;
  Name : string;
  Volumes : list string;
  Containers : list Container;
  PodRest : string;                  (* the fields the functions leave alone *)
}.

(** [kapi.PullIfNotPresent] *)
Definition PullIfNotPresent : string := "IfNotPresent".

(** [volume.VolumeConfig], with the fields the literals of the source set;
    the template is a pointer and [nil] in the zero value. *)
Record VolumeConfig := mkVolumeConfig {
  RecyclerMinimumTimeout : Z;
  RecyclerTimeoutIncrement : Z;
  RecyclerPodTemplate : option Pod;
}.

(** The flags of the controller manager the recycler reads. *)
Record VolumeConfigFlags := mkFlags {
  PersistentVolumeRecyclerMaximumRetry : Z;
  PersistentVolumeRecyclerMinimumTimeoutNFS : Z;
  PersistentVolumeRecyclerPodTemplateFilePathNFS : string;
  PersistentVolumeRecyclerIncrementTimeoutNFS : Z;
  PersistentVolumeRecyclerPodTemplateFilePathHostPath : string;
  PersistentVolumeRecyclerMinimumTimeoutHostPath : Z;
  PersistentVolumeRecyclerIncrementTimeoutHostPath : Z;
}.

Record ControllerManager := mkControllerManager {
  VolumeConfigFlags_ : VolumeConfigFlags;
  PVClaimBinderSyncPeriod : Z;
}.

(** The plugins a [ProbeVolumePlugins] call of a package contributes to
    [allPlugins]. *)
Inductive Probe :=
  | host_path (config : VolumeConfig)
  | nfs (config : VolumeConfig)
  | aws_ebs
  | gce_pd
  | cinder.

(** The arguments of [volumeclaimbinder.NewPersistentVolumeRecycler] that
    this function computes. *)
Record RecyclerArgs := mkRecyclerArgs {
  syncPeriod : Z;
  maximumRetry : Z;
  allPlugins : list Probe;
}.

(** What lies outside the file: the pod template of the volume package, the
    pod files on disk, and the constructor of the recycler. *)
Record World := mkWorld {
  NewPersistentVolumeRecyclerPodTemplate : Pod;
  LoadPodFromFile : string → Pod + error;
  NewPersistentVolumeRecycler : RecyclerArgs → option error;
}.

(** [func attemptToLoadRecycler(path string, config *volume.VolumeConfig) error]:
    the error, the config as the function leaves it, and the lines it
    logs. *)
Definition attemptToLoadRecycler (w : World) (path : string) (config : VolumeConfig) :
    option error * VolumeConfig * list LogLine :=
  let attempting := Infof 5 ("Attempting to load recycler pod file from " +:+ path) in
  match LoadPodFromFile w path with
  | inr err => (Some err, config, [attempting])
  | inl recyclerPod =>
      if decide (length (Volumes recyclerPod) ≠ 1%nat) then
        (Some ("Recycler pod is expected to have exactly 1 volume to scrub, but found "
               +:+ pretty (length (Volumes recyclerPod))),
         config, [attempting])
      else
        (None,
         mkVolumeConfig (RecyclerMinimumTimeout config)
           (RecyclerTimeoutIncrement config) (Some recyclerPod),
         [attempting;
          Infof 5 ("Recycler set to " +:+ Namespace recyclerPod
                   +:+ "/" +:+ Name recyclerPod)])
  end.

(** How [RunPersistentVolumeClaimRecycler] ends: the recycler runs with the
    arguments computed, the process is ended by [glog.Fatalf], or the
    function panics on [Containers[0]] of a template without container. *)
Inductive Outcome :=
  | Running (args : RecyclerArgs)
  | Fatal (msg : string)
  | IndexOutOfRange.

Record Trace := mkTrace {
  outcome : Outcome;
  loaded : list string;              (* the files read, in order *)
  logged : list LogLine;
}.

(** The assignments to [defaultScrubPod.Spec.Containers[0]]. *)
Definition scrubContainer (recyclerImageName : string) (c : Container) : Container :=
  mkContainer recyclerImageName ["/usr/bin/recycle"] ["/scrub"]
    (Some (mkSecurityContext (Some 0%Z))) PullIfNotPresent (ContainerRest c).

(** [func (c *MasterConfig) RunPersistentVolumeClaimRecycler(recyclerImageName,
    client, namespace)] *)
Definition RunPersistentVolumeClaimRecycler (w : World) (c : ControllerManager)
    (recyclerImageName namespace : string) : Trace :=
  let template := NewPersistentVolumeRecyclerPodTemplate w in
  match Containers template with
  | [] => mkTrace IndexOutOfRange [] []
  | c0 :: others =>
      let defaultScrubPod :=
        mkPod namespace (Name template) (Volumes template)
          (scrubContainer recyclerImageName c0 :: others) (PodRest template) in
      let volumeConfig := VolumeConfigFlags_ c in
      let hostPathConfig :=
        mkVolumeConfig (PersistentVolumeRecyclerMinimumTimeoutHostPath volumeConfig)
          (PersistentVolumeRecyclerIncrementTimeoutHostPath volumeConfig)
          (Some defaultScrubPod) in
      let pathHostPath := PersistentVolumeRecyclerPodTemplateFilePathHostPath volumeConfig in
      let '(errHostPath, hostPathConfig, logHostPath) :=
        if decide (String.length pathHostPath ≠ 0%nat)
        then attemptToLoadRecycler w pathHostPath hostPathConfig
        else (None, hostPathConfig, []) in
      let loadedHostPath :=
        if decide (String.length pathHostPath ≠ 0%nat) then [pathHostPath] else [] in
      match errHostPath with
      | Some err =>
          mkTrace
            (Fatal ("Could not create hostpath recycler pod from file "
                    +:+ pathHostPath +:+ ": " +:+ err))
            loadedHostPath logHostPath
      | None =>
          let nfsConfig :=
            mkVolumeConfig (PersistentVolumeRecyclerMinimumTimeoutNFS volumeConfig)
              (PersistentVolumeRecyclerIncrementTimeoutNFS volumeConfig)
              (Some defaultScrubPod) in
          let pathNFS := PersistentVolumeRecyclerPodTemplateFilePathNFS volumeConfig in
          let '(errNFS, nfsConfig, logNFS) :=
            if decide (String.length pathNFS ≠ 0%nat)
            then attemptToLoadRecycler w pathNFS nfsConfig
            else (None, nfsConfig, []) in
          let loadedNFS :=
            if decide (String.length pathNFS ≠ 0%nat) then [pathNFS] else [] in
          match errNFS with
          | Some err =>
              mkTrace
                (Fatal ("Could not create NFS recycler pod from file "
                        +:+ pathNFS +:+ ": " +:+ err))
                (loadedHostPath ++ loadedNFS) (logHostPath ++ logNFS)
          | None =>
              let args :=
                mkRecyclerArgs (PVClaimBinderSyncPeriod c)
                  (PersistentVolumeRecyclerMaximumRetry volumeConfig)
                  [host_path hostPathConfig; nfs nfsConfig; aws_ebs; gce_pd; cinder] in
              match NewPersistentVolumeRecycler w args with
              | Some err =>
                  mkTrace
                    (Fatal ("Could not start Persistent Volume Recycler: " +:+ err))
                    (loadedHostPath ++ loadedNFS) (logHostPath ++ logNFS)
              | None =>
                  mkTrace (Running args)
                    (loadedHostPath ++ loadedNFS) (logHostPath ++ logNFS)
              end
          end
      end
  end.

(** [fmt.Sprintf] for formats made of text, [%%] and [%s], given as many
    arguments as the format has [%s]. *)
Fixpoint Sprintf (format : string) (args : list string) : string :=
  match format with
  | EmptyString => EmptyString
  | String "%" (String "%" rest) => String "%" (Sprintf rest args)
  | String "%" (String "s" rest) =>
      match args with
      | a :: args' => a +:+ Sprintf rest args'
      | [] => "%!s(MISSING)" +:+ Sprintf rest []
      end
  | String c rest => String c (Sprintf rest args)
  end.

Definition KubeAPIPrefix : string := "/api".
Definition KubeAPIPrefixV1 : string := KubeAPIPrefix +:+ "/v1".
Definition KubeAPIGroupPrefix : string := "/apis".
Definition KubeAPIExtensionsPrefixV1beta1 : string :=
  KubeAPIGroupPrefix +:+ "/extensions/v1beta1".

(** [func (c *MasterConfig) InstallAPI(container) ([]string, error)], given
    what [master.New] returns and whether the options enable the two API
    versions ([configapi.HasKubernetesAPIVersion]).  The container is
    handed to [master.New] through the config and plays no other part.
    Go's [nil] slice is the empty list. *)
Definition InstallAPI (masterNew : option error) (hasV1 hasExtV1beta1 : bool) :
    list string * option error :=
  match masterNew with
  | Some err => ([], Some err)
  | None =>
      let messages := [] in
      let messages :=
        if hasV1
        then (messages ++ [Sprintf "Started Kubernetes API at %%s%s" [KubeAPIPrefixV1]])%list
        else messages in
      let messages :=
        if hasExtV1beta1
        then (messages
              ++ [Sprintf "Started Kubernetes API Extensions at %%s%s"
                    [KubeAPIExtensionsPrefixV1beta1]])%list
        else messages in
      (messages, None)
  end.
End master.

(** A template file that cannot serve: it does not load, or its pod does not
    have exactly one volume; [err] is the error [attemptToLoadRecycler]
    returns for it. *)
Definition unusable (w : master.World) (path : string) (err : error) : Prop :=
  master.LoadPodFromFile w path = inr err
  ∨ ∃ pod, master.LoadPodFromFile w path = inl pod
      ∧ length (master.Volumes pod) ≠ 1%nat
      ∧ err = "Recycler pod is expected to have exactly 1 volume to scrub, but found "
              +:+ pretty (length (master.Volumes pod)).

(** A world and a configuration to run the recycler set-up on: the template
    of the volume package with one container, a pod file for host path with
    one volume, a pod file with two volumes, no other file. *)
Definition example_template : master.Pod :=
  master.mkPod "default" "pv-recycler-" ["vol"]
    [master.mkContainer "gcr.io/google_containers/busybox" ["/bin/sh"] ["-c"; "scrub"]
       None "Always" "pv-recycler"]
    "restart: never".

Definition example_custom_pod : master.Pod :=
  master.mkPod "custom" "my-recycler" ["scrubbed"]
    [master.mkContainer "example/recycler" ["/recycle"] [] None "Always" "main"]
    EmptyString.

Definition example_world : master.World :=
  master.mkWorld example_template
    (λ path,
       if decide (path = "/etc/origin/hostpath-recycler.yaml") then inl example_custom_pod
       else if decide (path = "/etc/origin/two-volumes.yaml")
            then inl (master.mkPod "custom" "two" ["a"; "b"] [] EmptyString)
            else inr ("open " +:+ path +:+ ": no such file or directory"))
    (λ _, None).

Definition example_manager (pathHostPath pathNFS : string) : master.ControllerManager :=
  master.mkControllerManager
    (master.mkFlags 3 300 pathNFS 30 pathHostPath 60 30) 600.

(** ** The recycler scripts

    The two [recycler.sh] scripts, statement by statement.  The programs
    they run ([grep], [awk], [mktemp], [mount], and the [find], [stat],
    [sort], [xargs], [sudo], [rm] and [shred] pipelines) are commands of
    the system: a pipeline is one command, whose exit status is that of
    the pipeline under [pipefail], and whose standard output is what a
    command substitution captures.

    [set -e] is in force: a failing command ends the script with the
    status of the command, except where the shell exempts it, in the
    condition of an [if] and before the last [&&] of a list. *)

Module recycler.

Inductive Cmd :=
  | GrepNfs4 (dir : string)         (* grep -w "${dir}" /proc/mounts | grep -w nfs4 *)
  | AwkFirst (mnt : string)         (* echo ${mnt} | awk ... print $1 *)
  | Mktemp                          (* mktemp -d *)
  | Mount (exp tmp : string)        (* mount ${exp} ${tmp} -o vers=3,nolock *)
  | TouchStart (tmp : string)       (* stat ${tmp} | xargs ... sudo ... touch $3/start *)
  | RemoveFiles (tmp : string)      (* find ${tmp} -type f ... | xargs ... sudo ... rm $3 *)
  | ShredFiles (dir : string)       (* find ${dir} -type f ... | xargs ... sudo ... shred $3 *)
  | RemoveDirs (tmp : string)       (* find ${tmp} -mindepth 1 -type d ... | sort | xargs ... rm -rf $1 *)
  | RemoveRest (dir : string).      (* rm -rfv of everything in ${dir} *)

(** The system the script runs on: whether a path is a directory, and for a
    command, given the commands run before it, its exit status and its
    standard output. *)
Record System := mkSystem {
  isDir : string → bool;
  exec : list Cmd → Cmd → nat * string;
}.

(** What a run of the script leaves: its exit status, the lines it echoes
    itself to standard output and to standard error, and the commands it
    ran. *)
Record Run := mkRun {
  status : nat;
  said : list string;
  complained : list string;
  ran : list Cmd;
}.

(** The script failed under [set -e]: it ends with the status of the
    command, having said nothing. *)
Definition errexit (st : nat) (t : list Cmd) : Run := mkRun st [] [] t.

(** The end both scripts share:
    [if rm -rfv ${dir}/*; then echo 'Scrub OK'; exit 0; fi;
     echo 'Scrub failed'; exit 1]. *)
Definition finish (sys : System) (t : list Cmd) (dir : string) : Run :=
  if decide ((exec sys t (RemoveRest dir)).1 = 0%nat)
  then mkRun 0 ["Scrub OK"] [] (t ++ [RemoveRest dir])%list
  else mkRun 1 ["Scrub failed"] [] (t ++ [RemoveRest dir])%list.

(** A command on a line of its own: failure ends the script. *)
Definition line (sys : System) (t : list Cmd) (c : Cmd) (rest : list Cmd → Run) : Run :=
  let st := (exec sys t c).1 in
  if decide (st = 0%nat) then rest (t ++ [c])%list else errexit st (t ++ [c])%list.

(** The checks both scripts start with: one argument, which is a
    directory. *)
Definition checked (sys : System) (name : string) (args : list string)
    (body : string → Run) : Run :=
  match args with
  | [dir] =>
      if isDir sys dir then body dir
      else mkRun 1 []
             ["Error: scrub directory '" +:+ dir +:+ "' does not exist"] []
  | _ => mkRun 1 [] ["Usage: " +:+ name +:+ " some/path/to/scrub"] []
  end.


(** [images/origin/scripts/recycler.sh] *)
Definition nfs_recycler (sys : System) (name : string) (args : list string) : Run :=
  checked sys name args (λ dir,
    let tmp := dir in
    (* an assignment whose value is a command substitution fails with it *)
    let '(st_mnt, mnt) := exec sys [] (GrepNfs4 dir) in
    let t := [GrepNfs4 dir] in
    if decide (st_mnt ≠ 0%nat) then errexit st_mnt t else
    (* [[ ! -z ${mnt} ]] && exp=... : the assignment is last in the list *)
    let '(st_exp, exp, t) :=
      if decide (mnt ≠ EmptyString)
      then let '(st, out) := exec sys t (AwkFirst mnt) in (st, out, (t ++ [AwkFirst mnt])%list)
      else (0%nat, EmptyString, t) in
    if decide (st_exp ≠ 0%nat) then errexit st_exp t else
    (* [[ ! -z ${exp} ]] && tmp=... && mount ... : only [mount] is last *)
    let '(st_mount, tmp, t) :=
      if decide (exp ≠ EmptyString)
      then
        let '(st_tmp, out) := exec sys t Mktemp in
        let t := (t ++ [Mktemp])%list in
        if decide (st_tmp = 0%nat)
        then ((exec sys t (Mount exp out)).1, out, (t ++ [Mount exp out])%list)
        else (0%nat, out, t)
      else (0%nat, tmp, t) in
    if decide (st_mount ≠ 0%nat) then errexit st_mount t else
    line sys t (TouchStart tmp) (λ t,
    line sys t (RemoveFiles tmp) (λ t,
    line sys t (RemoveDirs tmp) (λ t,
    finish sys t dir)))).


End recycler.

(** Systems to run the scripts on: one where every command succeeds and
    the directory is no NFS version 4 mount, and one where it is. *)
Definition local_system : recycler.System :=
  recycler.mkSystem (λ _, true)
    (λ _ c, match c with recycler.GrepNfs4 _ => (1%nat, EmptyString) | _ => (0%nat, EmptyString) end).

Definition nfs4_system : recycler.System :=
  recycler.mkSystem (λ _, true)
    (λ _ c, match c with
            | recycler.GrepNfs4 _ => (0%nat, "server:/export /scrub nfs4 rw 0 0")
            | recycler.AwkFirst _ => (0%nat, "server:/export")
            | recycler.Mktemp => (0%nat, "/tmp/tmp.X")
            | _ => (0%nat, EmptyString)
            end).

(** * Properties *)

(** ** The model on small inputs *)

Example Sprintf1_woopra :
  Sprintf1 "http://www.woopra.com/track/ce?%s" "event=pod_add"
  = "http://www.woopra.com/track/ce?event=pod_add".
Proof. reflexivity. Qed.

Example lower_mixed : lower "Pod_ADD-1" = "pod_add-1".
Proof. reflexivity. Qed.

(** The same pointer added twice is queued once. *)
Example Add_same_pointer_twice :
  workqueue.queued
    (workqueue.Add (EventPtr 0) (workqueue.Add (EventPtr 0) workqueue.New))
  = [EventPtr 0].
Proof. vm_compute. reflexivity. Qed.

(** An item added again while it is in flight comes back once after
    [Done], however often it was added. *)
Example Add_while_in_flight :
  let q0 := workqueue.Add (EventPtr 0) workqueue.New in
  ∃ q1, workqueue.Get q0 = workqueue.Got (EventPtr 0) q1
    ∧ workqueue.queued
        (workqueue.Add (EventPtr 0) (workqueue.Add (EventPtr 0) q1)) = []
    ∧ workqueue.queued
        (workqueue.Done (EventPtr 0)
           (workqueue.Add (EventPtr 0) (workqueue.Add (EventPtr 0) q1)))
      = [EventPtr 0].
Proof. eexists. split; [reflexivity|]. vm_compute. split; reflexivity. Qed.

(** After shutdown nothing is added, and [Get] reports the shutdown. *)
Example Add_after_Shutdown :
  workqueue.Get (workqueue.Add (EventPtr 0) (workqueue.Shutdown workqueue.New))
  = workqueue.ShutDown.
Proof. reflexivity. Qed.

(** One event through the pipeline: enqueued, taken by the worker, sent to
    the endpoint, marked done; the queue is empty afterwards and the worker
    waits. *)
Example one_event_through :
  let s := final (enqueue "pod" "add" "ns1" (boot net_ok)) in
  let r := @worker asciiLib 2 s in
  r = Parked (final r)
  ∧ history (final r)
    = [QueueAdd (EventPtr 0);
       QueueGet (Some (EventPtr 0));
       HttpGet ("http://www.woopra.com/track/ce?"
                +:+ "cv_email=ns1&cv_project_namespace=ns1"
                +:+ "&event=pod_add&host=dev.openshift.redhat.com");
       QueueDone (EventPtr 0)]
  ∧ workqueue.queued (queue (ctrl (final r))) = []
  ∧ workqueue.inFlight (queue (ctrl (final r))) = ∅.
Proof. vm_compute. repeat split; reflexivity. Qed.

(** ** The monad *)

Lemma bind_unfold {A B} (m : M A) (f : A → M B) (s : State) :
  (m ≫= f) s =
  match m s with
  | Val a s' => f a s'
  | Panic msg s' => Panic msg s'
  | Parked s' => Parked s'
  end.
Proof. reflexivity. Qed.

Lemma bind_val {A B} (m : M A) (f : A → M B) (s s' : State) (a : A) :
  m s = Val a s' → (m ≫= f) s = f a s'.
Proof. intros Hm. rewrite bind_unfold, Hm. reflexivity. Qed.

Lemma deref_val (p : ptr) (e : analyticsEvent) (s : State) :
  heap s !! p = Some e → deref p s = Val e s.
Proof. intros Hp. unfold deref. rewrite Hp. reflexivity. Qed.

Lemma forever_step (fuel : nat) (stmt : M completion) (s s' : State) :
  stmt s = Val Normal s' → forever (S fuel) stmt s = forever fuel stmt s'.
Proof. intros Hs. simpl. rewrite bind_unfold, Hs. reflexivity. Qed.

(** The loop does leave the function when a statement of its body is a
    [return]. *)
Lemma forever_returns (fuel : nat) (stmt : M completion) (s s' : State) :
  stmt s = Val Returned s' → forever (S fuel) stmt s = Val (Some tt) s'.
Proof. intros Hs. simpl. rewrite bind_unfold, Hs. reflexivity. Qed.

(** ** The event handlers *)

(** With metadata at hand the three handlers do the same: they call
    [enqueue] with the current value of the captured variable, their action
    and the namespace of the object. *)
Lemma handle_with_meta (h : ResourceEventHandlerFuncs) (n : Notification)
    (m : ObjectMeta) (s : State) :
  Accessor (payload n) = (Some m, None) →
  handle h n s
  = enqueue (default EmptyString (vars s !! captured_name h)) (action_of n) (Namespace m) s.
Proof.
  intros Hacc. destruct n as [obj|oldObj obj|obj]; simpl in *.
  - unfold AddFunc. rewrite Hacc. reflexivity.
  - unfold UpdateFunc. rewrite Hacc. reflexivity.
  - unfold DeleteFunc. rewrite Hacc. reflexivity.
Qed.

Lemma enqueue_val (objName act ns : string) (s : State) :
  enqueue objName act ns s
  = Val tt
      (add_call (QueueAdd (EventPtr (length (heap s))))
         (set_queue
            (workqueue.Add (EventPtr (length (heap s))) (queue (ctrl s)))
            (set_heap (heap s ++ [mkEvent objName act ns])
               (add_log
                  (Infof 3 ("Enqueueing for tracking " +:+ objName +:+ " "
                            +:+ act +:+ " " +:+ ns)) s)))).
Proof. reflexivity. Qed.

(** C3, on the code: when the metadata accessor fails, each of the three
    handlers writes the error line and then panics with a nil dereference,
    because the error branch does not return and the namespace is read
    from the nil accessor.  Nothing is enqueued, and the handler does not
    return to the watcher. *)
Theorem C3_handler_panics_without_meta (h : ResourceEventHandlerFuncs)
    (n : Notification) (e : error) (s : State) :
  (Accessor (payload n)).2 = Some e →
  handle h n s
  = Panic nil_dereference (add_log (Errorf ("object has no meta: " +:+ e)) s).
Proof.
  intros He.
  assert (Hacc : Accessor (payload n) = (None, Some e)).
  { destruct (payload n); simpl in *; simplify_eq; reflexivity. }
  destruct n as [obj|oldObj obj|obj]; simpl in *.
  - unfold AddFunc. rewrite Hacc. reflexivity.
  - unfold UpdateFunc. rewrite Hacc. reflexivity.
  - unfold DeleteFunc. rewrite Hacc. reflexivity.
Qed.

(** The same for an add notification that carries a value without
    metadata. *)
Lemma C3_handler_panics_without_meta_witness :
  (Accessor (payload (OnAdd (NonObject "not an API object")))).2
  = Some "object does not implement the Object interfaces"
  ∧ handle (mkHandlers 0) (OnAdd (NonObject "not an API object")) (boot net_ok)
    = Panic nil_dereference
        (add_log
           (Errorf ("object has no meta: "
                    +:+ "object does not implement the Object interfaces"))
           (boot net_ok)).
Proof.
  split; [reflexivity|].
  apply (C3_handler_panics_without_meta (mkHandlers 0)
           (OnAdd (NonObject "not an API object"))).
  reflexivity.
Defined.

(** C7 as stated fails: for a delete notification whose object has no
    metadata [DeleteFunc] does not return normally and no event is
    enqueued. *)
Lemma C7_delete_without_meta_enqueues_nothing :
  let s := boot net_ok in
  let r := DeleteFunc (mkHandlers 0) (NonObject "not an API object") s in
  (∀ s', r ≠ Val tt s')
  ∧ heap (final r) = []
  ∧ history (final r) = []
  ∧ workqueue.queued (queue (ctrl (final r))) = [].
Proof. vm_compute. repeat split; try reflexivity. intros s' Hr. discriminate Hr. Qed.

(** C7, for objects with metadata: a delete notification whose object,
    after a tombstone [DeletedFinalStateUnknown] has been unwrapped, has
    metadata [m] makes the watcher call [enqueue] with action ["delete"] and
    the namespace of [m]: a new event with these fields (and the kind the
    captured variable holds) is allocated and added to the queue.  For a
    tombstone the metadata is that of the inner object. *)
Theorem C7_delete_enqueues_delete_event (h : ResourceEventHandlerFuncs)
    (obj : Object) (m : ObjectMeta) (s : State) :
  Accessor (unwrap obj) = (Some m, None) →
  ∃ s',
    DeleteFunc h obj s = Val tt s'
    ∧ heap s'
      = (heap s ++ [mkEvent (default EmptyString (vars s !! captured_name h))
                      "delete" (Namespace m)])%list
    ∧ history s' = (history s ++ [QueueAdd (EventPtr (length (heap s)))])%list
    ∧ queue (ctrl s')
      = workqueue.Add (EventPtr (length (heap s))) (queue (ctrl s))
    ∧ (∀ key inner, obj = DeletedFinalStateUnknown key inner →
         Accessor inner = (Some m, None)
         ∧ DeleteFunc h obj s = DeleteFunc h inner s).
Proof.
  intros Hacc.
  pose proof (handle_with_meta h (OnDelete obj) m s Hacc) as Hh. simpl in Hh.
  rewrite enqueue_val in Hh.
  eexists. split; [exact Hh|]. simpl.
  repeat split; try reflexivity.
  - subst obj. exact Hacc.
  - subst obj. simpl in Hacc.
    destruct inner; simpl in Hacc; simplify_eq. reflexivity.
Qed.

(** The same for the tombstone of a pod in namespace [ns1]. *)
Lemma C7_delete_enqueues_delete_event_witness :
  ∃ s',
    DeleteFunc (mkHandlers 0)
      (DeletedFinalStateUnknown "ns1/web" (ApiObject Pod (mkMeta "web" "ns1")))
      (boot net_ok) = Val tt s'
    ∧ heap s' = [mkEvent EmptyString "delete" "ns1"]
    ∧ history s' = [QueueAdd (EventPtr 0)]
    ∧ queue (ctrl s') = workqueue.Add (EventPtr 0) workqueue.New
    ∧ (∀ key inner,
         DeletedFinalStateUnknown "ns1/web" (ApiObject Pod (mkMeta "web" "ns1"))
         = DeletedFinalStateUnknown key inner →
         Accessor inner = (Some (mkMeta "web" "ns1"), None)
         ∧ DeleteFunc (mkHandlers 0)
             (DeletedFinalStateUnknown "ns1/web" (ApiObject Pod (mkMeta "web" "ns1")))
             (boot net_ok)
           = DeleteFunc (mkHandlers 0) inner (boot net_ok)).
Proof.
  apply (C7_delete_enqueues_delete_event (mkHandlers 0)
           (DeletedFinalStateUnknown "ns1/web" (ApiObject Pod (mkMeta "web" "ns1")))
           (mkMeta "web" "ns1") (boot net_ok)).
  reflexivity.
Defined.

(** ** Construction *)

Lemma registerWatch_val (name : loc) (kv : string * watchEntry) (s : State) :
  (name < length (vars s))%nat →
  registerWatch name kv s = Val tt (registered_one name s kv).
Proof.
  intros Hlt. unfold registerWatch, registered_one.
  rewrite bind_unfold. simpl. rewrite bind_unfold. unfold readVar. simpl.
  rewrite list_lookup_insert_eq by exact Hlt. reflexivity.
Qed.

Lemma forEach_registerWatch (name : loc) (order : list (string * watchEntry)) (s : State) :
  (name < length (vars s))%nat →
  forEach order (registerWatch name) s = Val tt (foldl (registered_one name) s order).
Proof.
  revert s. induction order as [|kv order IH]; intros s Hlt; [reflexivity|].
  simpl. rewrite bind_unfold, registerWatch_val by exact Hlt.
  apply IH. simpl. rewrite length_insert. exact Hlt.
Qed.

Lemma NewThirdPartyAnalyticsController_val (order : list (string * watchEntry)) (s : State) :
  NewThirdPartyAnalyticsController order s
  = Val tt (foldl (registered_one (length (vars s))) (before_loop s) order).
Proof.
  unfold NewThirdPartyAnalyticsController.
  rewrite bind_unfold. simpl. rewrite bind_unfold. simpl.
  rewrite forEach_registerWatch; [reflexivity|].
  simpl. rewrite length_app. simpl. lia.
Qed.

Section loop.
Variable name : loc.

Lemma loop_vars_length (order : list (string * watchEntry)) (s : State) :
  length (vars (foldl (registered_one name) s order)) = length (vars s).
Proof.
  revert s. induction order as [|kv order IH]; intros s; [reflexivity|].
  simpl. rewrite IH. simpl. apply length_insert.
Qed.

(** After the loop the variable holds the key visited last. *)
Lemma loop_name_last (order : list (string * watchEntry)) (s : State) (k : string) :
  (name < length (vars s))%nat →
  last order.*1 = Some k →
  vars (foldl (registered_one name) s order) !! name = Some k.
Proof.
  intros Hlt. destruct order as [|kv order] using rev_ind; [discriminate|].
  clear IHorder. rewrite fmap_app. simpl. rewrite last_snoc. intros [= <-].
  rewrite foldl_app. simpl.
  apply list_lookup_insert_eq. rewrite loop_vars_length. exact Hlt.
Qed.

(** Every controller the loop stores is an informer built from an entry it
    visited, under that entry's key, with handlers that capture [name]. *)
Lemma loop_controllers (order : list (string * watchEntry)) (s : State)
    (k : string) (c : Controller) :
  controllers (ctrl (foldl (registered_one name) s order)) !! k = Some c →
  controllers (ctrl s) !! k = Some c
  ∨ ∃ w, (k, w) ∈ order ∧ c = informer name w.
Proof.
  revert s. induction order as [|kv order IH]; intros s; [by left|].
  simpl. intros Hc. destruct (IH _ Hc) as [Hs|(w & Hw & ->)].
  - simpl in Hs. destruct (decide (kv.1 = k)) as [<-|Hne].
    + rewrite lookup_insert_eq in Hs. injection Hs as <-.
      right. exists kv.2. split; [|reflexivity].
      destruct kv. apply list_elem_of_here.
    + rewrite lookup_insert_ne in Hs by exact Hne. by left.
  - right. exists w. split; [|reflexivity]. by apply list_elem_of_further.
Qed.

Lemma loop_dom (order : list (string * watchEntry)) (s : State) :
  dom (controllers (ctrl (foldl (registered_one name) s order)))
  = dom (controllers (ctrl s)) ∪ list_to_set order.*1.
Proof.
  revert s. induction order as [|kv order IH]; intros s.
  - simpl. set_solver.
  - simpl. rewrite IH. simpl. rewrite dom_insert_L. set_solver.
Qed.

End loop.

(** What is registered does not depend on the order of the visit: the keys
    are those of [watches]. *)
Lemma dom_watches : dom watches = kinds.
Proof. vm_compute. reflexivity. Qed.

Lemma NewThirdPartyAnalyticsController_dom (order : list (string * watchEntry)) (s : State) :
  order ≡ₚ map_to_list watches →
  dom (controllers (ctrl (final (NewThirdPartyAnalyticsController order s)))) = kinds.
Proof.
  intros Hperm. rewrite NewThirdPartyAnalyticsController_val. simpl.
  rewrite loop_dom. simpl. rewrite dom_empty_L, (left_id_L ∅ (∪)).
  rewrite Hperm. rewrite <- dom_watches. symmetry.
  apply leibniz_equiv, dom_alt.
Qed.

Lemma NewThirdPartyAnalyticsController_lookup
    (order : list (string * watchEntry)) (s : State) (k : string) (c : Controller) :
  controllers (ctrl (final (NewThirdPartyAnalyticsController order s))) !! k = Some c →
  ∃ w, (k, w) ∈ order ∧ c = informer (length (vars s)) w.
Proof.
  rewrite NewThirdPartyAnalyticsController_val. simpl. intros Hc.
  apply loop_controllers in Hc as [Hc|Hc]; [|exact Hc].
  simpl in Hc. rewrite lookup_empty in Hc. discriminate.
Qed.

(** Every handler built by the constructor reads the variable [name] when it
    runs, and by then the loop has left the key it visited last in it: the
    watcher registered under any kind [K] enqueues its events under that
    last key. *)
Lemma watcher_enqueues_last_kind (order : list (string * watchEntry))
    (K lastK : string) (n : Notification) (m : ObjectMeta) (s0 : State) :
  K ∈ order.*1 →
  last order.*1 = Some lastK →
  Accessor (payload n) = (Some m, None) →
  let s := final (NewThirdPartyAnalyticsController order s0) in
  notify K n s = enqueue lastK (action_of n) (Namespace m) s.
Proof.
  intros HK Hlast Hacc s.
  assert (Hdom : K ∈ dom (controllers (ctrl s))).
  { subst s. rewrite NewThirdPartyAnalyticsController_val. simpl.
    rewrite loop_dom. set_solver. }
  apply elem_of_dom in Hdom as [c Hc].
  destruct (NewThirdPartyAnalyticsController_lookup order s0 K c Hc) as (w & _ & ->).
  unfold notify. rewrite Hc. rewrite (handle_with_meta _ n m s Hacc). simpl.
  subst s. rewrite NewThirdPartyAnalyticsController_val. simpl.
  rewrite (loop_name_last _ order _ lastK); [reflexivity| |exact Hlast].
  simpl. rewrite length_app. simpl. lia.
Qed.

(** Whatever the order of the visit, some watcher reports a kind that is not
    its own. *)
Lemma some_watcher_misreports (order : list (string * watchEntry)) (s0 : State) :
  order ≡ₚ map_to_list watches →
  ∃ K lastK, K ∈ kinds ∧ lastK ≠ K ∧
    ∀ n m, Accessor (payload n) = (Some m, None) →
      let s := final (NewThirdPartyAnalyticsController order s0) in
      notify K n s = enqueue lastK (action_of n) (Namespace m) s.
Proof.
  intros Hperm.
  assert (Hkeys : ∀ K, K ∈ kinds → K ∈ order.*1).
  { intros K HK. rewrite Hperm. rewrite <- dom_watches in HK.
    apply elem_of_dom in HK as [w Hw].
    apply list_elem_of_fmap. exists (K, w). split; [reflexivity|].
    by apply elem_of_map_to_list. }
  destruct (last order.*1) as [lastK|] eqn:Hlast.
  - destruct (decide (lastK = "pod")) as [->|Hne].
    + exists "route", "pod". split; [|split; [discriminate|]].
      * vm_compute. reflexivity.
      * intros n m Hacc. apply watcher_enqueues_last_kind; [|exact Hlast|exact Hacc].
        apply Hkeys. vm_compute. reflexivity.
    + exists "pod", lastK. split; [|split; [exact Hne|]].
      * vm_compute. reflexivity.
      * intros n m Hacc. apply watcher_enqueues_last_kind; [|exact Hlast|exact Hacc].
        apply Hkeys. vm_compute. reflexivity.
  - apply last_None in Hlast.
    assert (Hpod : "pod" ∈ order.*1) by (apply Hkeys; vm_compute; reflexivity).
    rewrite Hlast in Hpod. by apply elem_of_nil in Hpod.
Qed.

(** C2, on the code: with the entries visited in the order the source lists
    them, the watcher registered for ["pod"] enqueues an add of a pod in
    namespace ["ns1"] as an event of kind ["template"], the key the loop
    visited last, and not of kind ["pod"]. *)
Theorem C2_pod_watcher_enqueues_template_event :
  let s := final (NewThirdPartyAnalyticsController source_order (boot net_ok)) in
  let s' := final (notify "pod" (OnAdd (ApiObject Pod (mkMeta "web" "ns1"))) s) in
  dom (controllers (ctrl s)) = kinds
  ∧ listerWatcher <$> controllers (ctrl s) !! "pod"
    = Some (mkListWatch (mkCall kubeClient (Pods NamespaceAll) List)
                        (mkCall kubeClient (Pods NamespaceAll) Watch))
  ∧ heap s = []
  ∧ heap s' = [mkEvent "template" "add" "ns1"]
  ∧ workqueue.queued (queue (ctrl s')) = [EventPtr 0].
Proof. vm_compute. repeat split; reflexivity. Qed.

(** ** The registrations stay as constructed *)

Create HintDb keeps.

Lemma keeps_ret {A} (a : A) : keeps (mret a).
Proof. intros s. reflexivity. Qed.

Lemma keeps_panic {A} (msg : string) : keeps (@panic A msg).
Proof. intros s. reflexivity. Qed.

Lemma keeps_bind {A B} (m : M A) (f : A → M B) :
  keeps m → (∀ a, keeps (f a)) → keeps (m ≫= f).
Proof.
  intros Hm Hf s. rewrite bind_unfold. specialize (Hm s).
  destruct (m s) as [a s'|msg s'|s']; simpl in *; try exact Hm.
  rewrite Hf. exact Hm.
Qed.

Lemma keeps_modify (f : State → State) :
  (∀ s, controllers (ctrl (f s)) = controllers (ctrl s)) → keeps (modify f).
Proof. intros Hf s. apply Hf. Qed.

Lemma keeps_defer {A} (d : M unit) (body : M A) :
  keeps d → keeps body → keeps (defer d body).
Proof.
  intros Hd Hb s. unfold defer. specialize (Hb s).
  destruct (body s) as [a s'|msg s'|s']; simpl in *; try exact Hb.
  - rewrite bind_unfold. specialize (Hd s').
    destruct (d s') as [[] s''|msg s''|s'']; simpl in *; congruence.
  - specialize (Hd s').
    destruct (d s') as [[] s''|msg' s''|s'']; simpl in *; congruence.
Qed.

Lemma keeps_forEach {A} (l : list A) (body : A → M unit) :
  (∀ x, keeps (body x)) → keeps (forEach l body).
Proof.
  intros Hb. induction l as [|x l IH]; simpl.
  - apply keeps_ret.
  - apply keeps_bind; [apply Hb|intros _; exact IH].
Qed.

Lemma keeps_forever (fuel : nat) (stmt : M completion) :
  keeps stmt → keeps (forever fuel stmt).
Proof.
  intros Hs. induction fuel as [|fuel IH]; simpl.
  - apply keeps_ret.
  - apply keeps_bind; [exact Hs|]. intros [|]; [exact IH|apply keeps_ret].
Qed.

#[local] Hint Resolve keeps_ret keeps_panic keeps_bind keeps_defer
  keeps_forEach keeps_forever : keeps.

Ltac keeps_prim := apply keeps_modify; intros ?; reflexivity.

Lemma keeps_logInfof (v : nat) (msg : string) : keeps (logInfof v msg).
Proof. keeps_prim. Qed.

Lemma keeps_logErrorf (msg : string) : keeps (logErrorf msg).
Proof. keeps_prim. Qed.

Lemma keeps_queueAdd (x : item) : keeps (queueAdd x).
Proof. keeps_prim. Qed.

Lemma keeps_queueDone (x : item) : keeps (queueDone x).
Proof. keeps_prim. Qed.

Lemma keeps_queueGet : keeps queueGet.
Proof.
  intros s. unfold queueGet.
  destruct (workqueue.Get (queue (ctrl s))); reflexivity.
Qed.

Lemma keeps_newEvent (objName act ns : string) : keeps (newEvent objName act ns).
Proof. intros s. reflexivity. Qed.

Lemma keeps_deref (p : ptr) : keeps (deref p).
Proof. intros s. unfold deref. destruct (heap s !! p); reflexivity. Qed.

Lemma keeps_readVar (l : loc) : keeps (readVar l).
Proof. intros s. reflexivity. Qed.

Lemma keeps_httpGet (url : string) : keeps (httpGet url).
Proof. intros s. reflexivity. Qed.

Lemma keeps_registered : keeps registered.
Proof. intros s. reflexivity. Qed.

#[local] Hint Resolve keeps_logInfof keeps_logErrorf keeps_queueAdd
  keeps_queueDone keeps_queueGet keeps_newEvent keeps_deref keeps_readVar
  keeps_httpGet keeps_registered : keeps.

Lemma keeps_enqueue (objName act ns : string) : keeps (enqueue objName act ns).
Proof. unfold enqueue. auto 10 with keeps. Qed.

Lemma keeps_GetNamespace (meta : option ObjectMeta) : keeps (GetNamespace meta).
Proof. destruct meta; simpl; auto with keeps. Qed.

#[local] Hint Resolve keeps_enqueue keeps_GetNamespace : keeps.

Lemma keeps_handle (h : ResourceEventHandlerFuncs) (n : Notification) :
  keeps (handle h n).
Proof.
  destruct n as [obj|oldObj obj|obj]; simpl.
  - unfold AddFunc. destruct (Accessor obj) as [meta [e|]]; auto 10 with keeps.
  - unfold UpdateFunc. destruct (Accessor obj) as [meta [e|]]; auto 10 with keeps.
  - unfold DeleteFunc. destruct (Accessor (unwrap obj)) as [meta [e|]]; auto 10 with keeps.
Qed.

Lemma keeps_notify (kind : string) (n : Notification) : keeps (notify kind n).
Proof.
  intros s. unfold notify.
  destruct (controllers (ctrl s) !! kind); [apply keeps_handle|reflexivity].
Qed.

Lemma keeps_Run (workers : Z) : keeps (Run workers).
Proof. unfold Run. auto 10 with keeps. Qed.

Section keeps_tracker.
Context `{GoLib}.

Lemma keeps_TrackEvent (c : realAnalyticsTracker) (params : gmap string string)
    (method endpoint : string) :
  keeps (TrackEvent c params method endpoint).
Proof.
  unfold TrackEvent. apply keeps_bind; [auto with keeps|]. intros _.
  destruct (decide (method = "GET")); [|auto with keeps].
  apply keeps_bind; [auto with keeps|].
  intros [err|status [data|err]]; auto with keeps.
Qed.

Lemma keeps_track (objName act ns : string) : keeps (track objName act ns).
Proof.
  unfold track. apply keeps_bind; [apply keeps_TrackEvent|].
  intros [e|]; auto with keeps.
Qed.

Lemma keeps_workerBody : keeps workerBody.
Proof.
  unfold workerBody. apply keeps_bind; [auto with keeps|].
  intros [obj|]; [|auto with keeps].
  apply keeps_defer; [auto with keeps|].
  apply keeps_bind; [|auto with keeps].
  destruct obj as [p|v]; [|auto with keeps].
  apply keeps_bind; [auto with keeps|]. intros e.
  apply keeps_bind; [apply keeps_track|].
  intros [msg|]; auto with keeps.
Qed.

Lemma keeps_worker (fuel : nat) : keeps (worker fuel).
Proof.
  unfold worker, callLiteral.
  apply keeps_forever, keeps_bind; [apply keeps_workerBody|auto with keeps].
Qed.

Lemma exec_controllers (op : Op) (s : State) :
  controllers (ctrl (exec op s)) = controllers (ctrl s).
Proof.
  destruct op; unfold exec.
  - apply keeps_Run.
  - apply keeps_notify.
  - apply keeps_enqueue.
  - apply keeps_track.
  - apply keeps_worker.
Qed.

Lemma execAll_controllers (ops : list Op) (s : State) :
  controllers (ctrl (execAll ops s)) = controllers (ctrl s).
Proof.
  revert s. induction ops as [|op ops IH]; intros s; [reflexivity|].
  unfold execAll in *. simpl. rewrite IH. apply exec_controllers.
Qed.
End keeps_tracker.

(** ** The registry *)

Lemma watches_all_namespaces (k : string) (w : watchEntry) :
  watches !! k = Some w → entry_all_namespaces w = true.
Proof.
  intros Hw. apply elem_of_map_to_list, list_elem_of_In in Hw.
  assert (Hall : forallb (λ kw, entry_all_namespaces kw.2) (map_to_list watches) = true)
    by (vm_compute; reflexivity).
  rewrite forallb_forall in Hall. exact (Hall (k, w) Hw).
Qed.

Lemma watches_scoped (k : string) (w : watchEntry) :
  watches !! k = Some w → entry_scoped k w = true.
Proof.
  intros Hw. apply elem_of_map_to_list, list_elem_of_In in Hw.
  assert (Hall : forallb (λ kw, entry_scoped kw.1 kw.2) (map_to_list watches) = true)
    by (vm_compute; reflexivity).
  rewrite forallb_forall in Hall. exact (Hall (k, w) Hw).
Qed.

Lemma source_order_perm : source_order ≡ₚ map_to_list watches.
Proof.
  apply (bool_decide_unpack (source_order ≡ₚ map_to_list watches)).
  vm_compute. exact I.
Qed.

(** C8: whatever order the constructor visits the registry in, it registers
    exactly the ten kinds; every informer it builds has resync period 0 and
    list and watch functions that cover all namespaces: they are those of
    the entry of that kind, written with [api.NamespaceAll], or, for the
    kind ["namespace"], on the cluster-wide collection of namespaces; and no
    method or callback run afterwards, in any number and order, changes the
    map of registrations. *)
Theorem C8_registrations_fixed_at_construction `{GoLib}
    (order : list (string * watchEntry)) (s0 : State) :
  order ≡ₚ map_to_list watches →
  let s := final (NewThirdPartyAnalyticsController order s0) in
  dom (controllers (ctrl s)) = kinds
  ∧ (∀ k c, controllers (ctrl s) !! k = Some c →
       resyncPeriod c = 0%Z
       ∧ allNamespaces (ListFunc (listerWatcher c)) = true
       ∧ allNamespaces (WatchFunc (listerWatcher c)) = true
       ∧ scope (collection (ListFunc (listerWatcher c))) = expected_scope k
       ∧ scope (collection (WatchFunc (listerWatcher c))) = expected_scope k
       ∧ ∃ w, watches !! k = Some w
              ∧ ListFunc (listerWatcher c) = listFunc w
              ∧ WatchFunc (listerWatcher c) = watchFunc w)
  ∧ (∀ ops, controllers (ctrl (execAll ops s)) = controllers (ctrl s)).
Proof.
  intros Hperm s. split; [|split].
  - apply NewThirdPartyAnalyticsController_dom, Hperm.
  - intros k c Hc.
    destruct (NewThirdPartyAnalyticsController_lookup order s0 k c Hc) as (w & Hw & ->).
    rewrite Hperm in Hw. apply elem_of_map_to_list in Hw.
    pose proof (watches_all_namespaces k w Hw) as Hall.
    unfold entry_all_namespaces in Hall. apply andb_prop in Hall as [Hl Hwa].
    pose proof (watches_scoped k w Hw) as Hsc.
    unfold entry_scoped in Hsc. apply andb_prop in Hsc as [Hsl Hsw].
    apply bool_decide_eq_true_1 in Hsl, Hsw.
    simpl. repeat split; try assumption. by exists w.
  - intros ops. apply execAll_controllers.
Qed.

(** The same for the order in which the source lists the entries. *)
Lemma C8_registrations_fixed_at_construction_witness :
  source_order ≡ₚ map_to_list watches
  ∧ let s := final (NewThirdPartyAnalyticsController source_order (boot net_ok)) in
    dom (controllers (ctrl s)) = kinds
    ∧ (∀ k c, controllers (ctrl s) !! k = Some c →
         resyncPeriod c = 0%Z
         ∧ allNamespaces (ListFunc (listerWatcher c)) = true
         ∧ allNamespaces (WatchFunc (listerWatcher c)) = true
         ∧ scope (collection (ListFunc (listerWatcher c))) = expected_scope k
         ∧ scope (collection (WatchFunc (listerWatcher c))) = expected_scope k
         ∧ ∃ w, watches !! k = Some w
                ∧ ListFunc (listerWatcher c) = listFunc w
                ∧ WatchFunc (listerWatcher c) = watchFunc w)
    ∧ (∀ ops, controllers (ctrl (@execAll asciiLib ops s)) = controllers (ctrl s)).
Proof.
  assert (Hperm : source_order ≡ₚ map_to_list watches).
  { apply (bool_decide_unpack (source_order ≡ₚ map_to_list watches)).
    vm_compute. exact I. }
  split; [exact Hperm|].
  apply (@C8_registrations_fixed_at_construction asciiLib source_order (boot net_ok) Hperm).
Defined.

(** ** The tracker *)

(** [urlParams] holds each parameter once, as a one-element list. *)
Lemma urlParams_singletons (params : gmap string string) :
  map_fold urlAdd ∅ params = (λ v, [v]) <$> params.
Proof.
  apply (map_fold_weak_ind (λ r m, r = (λ v, [v]) <$> m)).
  - by rewrite fmap_empty.
  - intros k v m r Hk ->. unfold urlAdd.
    rewrite lookup_fmap, Hk. simpl. by rewrite fmap_insert.
Qed.

Section tracker_facts.
Context `{GoLib}.

Lemma TrackEvent_GET (c : realAnalyticsTracker) (params : gmap string string)
    (endpoint : string) (s : State) :
  TrackEvent c params "GET" endpoint s
  = Val (reported (net s (length (requests s)) (requested params endpoint)))
      (add_call (HttpGet (requested params endpoint))
         (add_log (Infof 3 ("Tracking data: " +:+ Encode (map_fold urlAdd ∅ params))) s)).
Proof.
  unfold TrackEvent, requested. rewrite bind_unfold. simpl.
  rewrite bind_unfold. unfold httpGet. simpl.
  change (requests (add_log _ s)) with (requests s).
  destruct (net s (length (requests s)) _) as [err|status [data|err]]; reflexivity.
Qed.

Lemma track_val (objName act ns : string) (s : State) :
  let params := trackParams objName act ns in
  track objName act ns s
  = Val (match reported (net s (length (requests s)) (requested params woopra)) with
         | Some e => Some ("Error sending track event: " +:+ e)
         | None => None
         end)
      (add_call (HttpGet (requested params woopra))
         (add_log (Infof 3 ("Tracking data: " +:+ Encode (map_fold urlAdd ∅ params))) s)).
Proof.
  intros params. unfold track. rewrite bind_unfold, TrackEvent_GET.
  fold params. destruct (reported _); reflexivity.
Qed.
End tracker_facts.

(** C5, as the code has it: a [GET] through [TrackEvent] sends one request
    and returns an error exactly when the transport fails or the body of the
    response cannot be read; the status of the response is not looked at, so
    every response whose body can be read is reported as success. *)
Theorem C5_TrackEvent_fails_on_transport_or_read_error `{GoLib}
    (c : realAnalyticsTracker) (params : gmap string string)
    (endpoint : string) (s : State) :
  ∃ err s',
    TrackEvent c params "GET" endpoint s = Val err s'
    ∧ history s' = (history s ++ [HttpGet (requested params endpoint)])%list
    ∧ match net s (length (requests s)) (requested params endpoint) with
      | TransportError e => err = Some e
      | Response status (ReadErr e) => err = Some ("error tracking event: " +:+ e)
      | Response status (ReadOk _) => err = None
      end.
Proof.
  eexists _, _. split; [apply TrackEvent_GET|]. split; [reflexivity|].
  destruct (net s _ _) as [e|status [data|e]]; reflexivity.
Qed.

(** C5 as stated fails: the endpoint answers 500, which is not a success
    status, and [TrackEvent] returns [nil]. *)
Lemma C5_non_success_response_reported_as_success :
  let url := @requested asciiLib (@trackParams asciiLib "pod" "add" "ns1") woopra in
  net_500 0%nat url = Response 500 (ReadOk "error")
  ∧ successStatus 500 = false
  ∧ ∃ s', @TrackEvent asciiLib NewAnalyticsTracker
            (@trackParams asciiLib "pod" "add" "ns1") "GET" woopra (boot net_500)
          = Val None s'
          ∧ history s' = [HttpGet url].
Proof.
  split; [reflexivity|]. split; [vm_compute; reflexivity|].
  eexists. split; [vm_compute; reflexivity|]. vm_compute. reflexivity.
Qed.

(** C9: the parameters [track] passes on have exactly the four keys [host],
    [event], [cv_email] and [cv_project_namespace]; [host] is the fixed
    name, [event] is the lower-cased kind and action joined by [_], and both
    [cv_email] and [cv_project_namespace] are the namespace.  [track] sends
    one request, to the Woopra url formatted with these parameters, each
    with its single value. *)
Theorem C9_track_sends_four_parameters `{GoLib} (objName act ns : string) (s : State) :
  let params := trackParams objName act ns in
  dom params = {[ "host"; "event"; "cv_email"; "cv_project_namespace" ]}
  ∧ params !! "host" = Some "dev.openshift.redhat.com"
  ∧ params !! "event" = Some (ToLower objName +:+ "_" +:+ ToLower act)
  ∧ params !! "cv_email" = Some ns
  ∧ params !! "cv_project_namespace" = Some ns
  ∧ history (final (track objName act ns s))
    = (history s
       ++ [HttpGet (Sprintf1 "http://www.woopra.com/track/ce?%s"
                      (Encode ((λ v, [v]) <$> params)))])%list.
Proof.
  intros params. split; [|split; [|split; [|split; [|split]]]].
  - unfold params, trackParams. rewrite !dom_insert_L, dom_singleton_L. set_solver.
  - reflexivity.
  - reflexivity.
  - reflexivity.
  - reflexivity.
  - rewrite track_val. simpl. unfold requested.
    rewrite urlParams_singletons. reflexivity.
Qed.

(** ** The queue *)

Lemma Done_not_inFlight `{Countable T} (x : T) (q : workqueue.Queue T) :
  x ∉ workqueue.inFlight (workqueue.Done x q).
Proof. unfold workqueue.Done. case_bool_decide; simpl; set_solver. Qed.

(** Adding the item that was just added changes nothing. *)
Lemma Add_idempotent `{Countable T} (x : T) (q : workqueue.Queue T) :
  workqueue.Add x (workqueue.Add x q) = workqueue.Add x q.
Proof.
  unfold workqueue.Add.
  destruct (workqueue.shuttingDown q) eqn:Hsd; [by rewrite Hsd|].
  destruct (bool_decide (x ∈ workqueue.queued q)) eqn:Hq; [by rewrite Hsd, Hq|].
  destruct (bool_decide (x ∈ workqueue.inFlight q)) eqn:Hf; simpl;
    rewrite ?Hsd, ?Hq, ?Hf.
  - f_equal. set_solver.
  - rewrite bool_decide_eq_true_2; [reflexivity|]. set_solver.
Qed.

(** ** The worker *)

Section worker_facts.
Context `{GoLib}.

Lemma requests_add_call (c : Call) (s : State) :
  requests (add_call c s)
  = (requests s ++ (if is_request c then [c] else []))%list.
Proof.
  unfold requests. simpl. rewrite filter_app. f_equal.
  destruct c; reflexivity.
Qed.

Lemma requests_set_queue (q : workqueue.Queue item) (s : State) :
  requests (set_queue q s) = requests s.
Proof. reflexivity. Qed.

(** On a queue that reports shutdown the literal returns, and the state is
    as before but for the call of [Get]. *)
Lemma workerBody_shutdown (s : State) :
  workqueue.Get (queue (ctrl s)) = workqueue.ShutDown →
  workerBody s = Val Returned (add_call (QueueGet None) s).
Proof.
  intros Hget. unfold workerBody. rewrite bind_unfold.
  unfold queueGet. rewrite Hget. reflexivity.
Qed.

Lemma worker_shutdown (fuel : nat) (s : State) :
  workqueue.Get (queue (ctrl s)) = workqueue.ShutDown →
  worker fuel s = Val None (Nat.iter fuel (add_call (QueueGet None)) s).
Proof.
  revert s. induction fuel as [|fuel IH]; intros s Hget; [reflexivity|].
  unfold worker. rewrite (forever_step _ _ s (add_call (QueueGet None) s)).
  - fold (worker fuel). rewrite IH by exact Hget.
    f_equal. simpl. apply Nat.iter_swap.
  - unfold callLiteral. rewrite bind_unfold, workerBody_shutdown by exact Hget.
    reflexivity.
Qed.

Lemma history_iter_Get (n : nat) (s : State) :
  history (Nat.iter n (add_call (QueueGet None)) s)
  = (history s ++ replicate n (QueueGet None))%list.
Proof.
  induction n as [|n IH].
  - simpl. by rewrite app_nil_r.
  - rewrite replicate_S_end, app_assoc, <- IH. reflexivity.
Qed.

End worker_facts.

(** C4, on the code: once [Get] reports shutdown, it reports it to the
    worker on every call, the function literal returns each time, and the
    [for] loop around it goes on: after any number of rounds [worker] has
    not returned and has called [Get] once per round. *)
Theorem C4_worker_keeps_looping_after_shutdown `{GoLib} (fuel : nat) (s : State) :
  workqueue.Get (queue (ctrl s)) = workqueue.ShutDown →
  queueGet s = Val None (add_call (QueueGet None) s)
  ∧ workerBody s = Val Returned (add_call (QueueGet None) s)
  ∧ ∃ s', worker fuel s = Val None s'
          ∧ history s' = (history s ++ replicate fuel (QueueGet None))%list
          ∧ queue (ctrl s') = queue (ctrl s).
Proof.
  intros Hget. split; [|split].
  - unfold queueGet. rewrite Hget. reflexivity.
  - apply workerBody_shutdown, Hget.
  - eexists. split; [apply worker_shutdown, Hget|]. split.
    + apply history_iter_Get.
    + clear Hget. induction fuel as [|fuel IH]; [reflexivity|]. simpl. exact IH.
Qed.

(** The same on an empty queue that was shut down, for three rounds. *)
Lemma C4_worker_keeps_looping_after_shutdown_witness :
  let s := set_queue (workqueue.Shutdown workqueue.New) (boot net_ok) in
  workqueue.Get (queue (ctrl s)) = workqueue.ShutDown
  ∧ queueGet s = Val None (add_call (QueueGet None) s)
  ∧ @workerBody asciiLib s = Val Returned (add_call (QueueGet None) s)
  ∧ ∃ s', @worker asciiLib 3 s = Val None s'
          ∧ history s' = (history s ++ replicate 3 (QueueGet None))%list
          ∧ queue (ctrl s') = queue (ctrl s).
Proof.
  intros s. split; [reflexivity|].
  apply (@C4_worker_keeps_looping_after_shutdown asciiLib 3 s). reflexivity.
Defined.



(** C10: when the item [Get] hands out is not an event, the round of the
    worker ends normally; it has sent no request and written no log line;
    it has called [Done] for the item, which is then no longer in flight;
    and the loop goes on with the next round. *)
Theorem C10_foreign_item_is_done_untracked `{GoLib} (fuel : nat) (s : State)
    (v : string) (q' : workqueue.Queue item) :
  workqueue.Get (queue (ctrl s)) = workqueue.Got (Other v) q' →
  ∃ s',
    callLiteral workerBody s = Val Normal s'
    ∧ history s'
      = (history s ++ [QueueGet (Some (Other v)); QueueDone (Other v)])%list
    ∧ requests s' = requests s
    ∧ glog s' = glog s
    ∧ queue (ctrl s') = workqueue.Done (Other v) q'
    ∧ (Other v ∉ workqueue.inFlight (queue (ctrl s')))
    ∧ worker (S fuel) s = worker fuel s'.
Proof.
  intros Hget.
  assert (Hround : callLiteral workerBody s
    = Val Normal
        (add_call (QueueDone (Other v))
           (set_queue (workqueue.Done (Other v) q')
              (add_call (QueueGet (Some (Other v))) (set_queue q' s))))).
  { unfold callLiteral, workerBody. rewrite !bind_unfold.
    unfold queueGet. rewrite Hget. reflexivity. }
  eexists. split; [exact Hround|]. simpl.
  split; [by rewrite <- app_assoc|].
  split.
  { rewrite requests_add_call, requests_set_queue, requests_add_call,
      requests_set_queue. simpl. by rewrite !app_nil_r. }
  split; [reflexivity|].
  split; [reflexivity|].
  split; [apply Done_not_inFlight|].
  unfold worker. apply forever_step. exact Hround.
Qed.

(** The same for a queue that holds a string key. *)
Lemma C10_foreign_item_is_done_untracked_witness :
  let s := set_queue (workqueue.Add (Other "ns1/web") workqueue.New) (boot net_ok) in
  let q' := workqueue.mkQueue [] {[Other "ns1/web"]} ∅ false in
  ∃ s',
    callLiteral (@workerBody asciiLib) s = Val Normal s'
    ∧ history s'
      = (history s ++ [QueueGet (Some (Other "ns1/web")); QueueDone (Other "ns1/web")])%list
    ∧ requests s' = requests s
    ∧ glog s' = glog s
    ∧ queue (ctrl s') = workqueue.Done (Other "ns1/web") q'
    ∧ (Other "ns1/web" ∉ workqueue.inFlight (queue (ctrl s')))
    ∧ @worker asciiLib 3 s = @worker asciiLib 2 s'.
Proof.
  intros s q'.
  apply (@C10_foreign_item_is_done_untracked asciiLib 2 s "ns1/web" q').
  vm_compute. reflexivity.
Defined.

(** ** Repeated enqueues *)

Lemma yielded_add_call (c : Call) (s : State) :
  yielded (add_call c s)
  = (yielded s ++ match c with QueueGet (Some x) => [x] | _ => [] end)%list.
Proof.
  unfold yielded. simpl. rewrite omap_app. f_equal.
  destruct c as [x|[x|]|x|url]; reflexivity.
Qed.

Lemma enqueue_settled (objName act ns : string) (s : State) :
  settled s →
  ∃ s', enqueue objName act ns s = Val tt s'
    ∧ settled s'
    ∧ workqueue.queued (queue (ctrl s'))
      = (workqueue.queued (queue (ctrl s)) ++ [EventPtr (length (heap s))])%list
    ∧ heap s' = (heap s ++ [mkEvent objName act ns])%list
    ∧ yielded s' = yielded s.
Proof.
  intros [Hopen Hfl Hd Hq]. eexists. split; [apply enqueue_val|].
  assert (Hfresh : EventPtr (length (heap s)) ∉ workqueue.queued (queue (ctrl s))).
  { intros Hin. apply Hq in Hin as (p & [= <-] & Hlt). lia. }
  assert (Hadd : workqueue.Add (EventPtr (length (heap s))) (queue (ctrl s))
    = workqueue.mkQueue
        (workqueue.queued (queue (ctrl s)) ++ [EventPtr (length (heap s))])
        ∅ ∅ false).
  { unfold workqueue.Add. rewrite Hopen.
    rewrite bool_decide_eq_false_2 by exact Hfresh.
    rewrite bool_decide_eq_false_2 by (rewrite Hfl; set_solver).
    by rewrite Hfl, Hd. }
  simpl. rewrite Hadd. simpl. split; [|split; [reflexivity|split; [reflexivity|]]].
  - split; simpl; try reflexivity.
    intros x Hx. rewrite length_app. simpl.
    apply elem_of_app in Hx as [Hx|Hx].
    + apply Hq in Hx as (p & -> & Hlt). exists p. split; [reflexivity|lia].
    + apply list_elem_of_singleton in Hx as ->. eexists. split; [reflexivity|lia].
  - rewrite yielded_add_call. simpl. by rewrite app_nil_r.
Qed.

Lemma enqueueN_settled (n : nat) (objName act ns : string) (s : State) :
  settled s →
  ∃ s', enqueueN n objName act ns s = Val tt s'
    ∧ settled s'
    ∧ workqueue.queued (queue (ctrl s'))
      = (workqueue.queued (queue (ctrl s))
         ++ (EventPtr <$> seq (length (heap s)) n))%list
    ∧ heap s' = (heap s ++ replicate n (mkEvent objName act ns))%list
    ∧ yielded s' = yielded s.
Proof.
  revert s. induction n as [|n IH]; intros s Hs.
  - exists s. simpl. rewrite !app_nil_r.
    split; [reflexivity|split; [exact Hs|by repeat split]].
  - destruct (enqueue_settled objName act ns s Hs) as (s1 & He & Hs1 & Hq1 & Hh1 & Hy1).
    destruct (IH s1 Hs1) as (s' & Hn & Hs' & Hq' & Hh' & Hy').
    exists s'. split; [|split; [exact Hs'|split; [|split]]].
    + unfold enqueueN in *. simpl. rewrite bind_unfold, He. exact Hn.
    + rewrite Hq', Hq1, Hh1, length_app, <- app_assoc. simpl.
      by rewrite Nat.add_1_r.
    + rewrite Hh', Hh1, <- app_assoc. reflexivity.
    + by rewrite Hy'.
Qed.

Section consume.
Context `{GoLib}.

(** A round of the worker on a settled queue with an item at its head. *)
Lemma round_settled (s : State) (x : item) (rest : list item) :
  settled s →
  workqueue.queued (queue (ctrl s)) = x :: rest →
  ∃ s', callLiteral workerBody s = Val Normal s'
    ∧ settled s'
    ∧ workqueue.queued (queue (ctrl s')) = rest
    ∧ heap s' = heap s
    ∧ yielded s' = (yielded s ++ [x])%list.
Proof.
  intros [Hopen Hfl Hd Hq] Hx.
  destruct (Hq x) as (p & -> & Hlt); [rewrite Hx; apply list_elem_of_here|].
  apply lookup_lt_is_Some_2 in Hlt as [e He].
  pose (q' := workqueue.mkQueue rest {[EventPtr p]} ∅ false).
  assert (Hget : workqueue.Get (queue (ctrl s)) = workqueue.Got (EventPtr p) q').
  { unfold workqueue.Get. rewrite Hx, Hfl, Hd, Hopen. subst q'.
    by rewrite (right_id_L ∅ (∪)). }
  assert (Hdone : workqueue.Done (EventPtr p) q'
    = workqueue.mkQueue rest ∅ ∅ false).
  { unfold workqueue.Done. subst q'. simpl.
    rewrite bool_decide_eq_false_2 by set_solver.
    f_equal. set_solver. }
  assert (Hround : ∃ s', callLiteral workerBody s = Val Normal s'
    ∧ queue (ctrl s') = workqueue.Done (EventPtr p) q'
    ∧ heap s' = heap s
    ∧ yielded s' = (yielded s ++ [EventPtr p])%list).
  { destruct (track (objectName e) (action e) (namespace e)
                (add_call (QueueGet (Some (EventPtr p))) (set_queue q' s)))
      as [err s2|msg s2|s2] eqn:Htrack;
      pose proof Htrack as Htrack';
      rewrite track_val in Htrack'; simpl in Htrack'; try discriminate.
    injection Htrack' as _ Hs2.
    destruct err as [msg|]; eexists;
      (split;
       [ unfold callLiteral, workerBody; rewrite !bind_unfold;
         unfold queueGet; rewrite Hget; unfold defer; rewrite !bind_unfold;
         rewrite (deref_val p e
                    (add_call (QueueGet (Some (EventPtr p))) (set_queue q' s)) He),
                 bind_unfold, Htrack; reflexivity
       | subst s2; simpl; split; [reflexivity|split; [reflexivity|]];
         unfold yielded; simpl; rewrite !omap_app; simpl;
         by rewrite !app_nil_r ]). }
  destruct Hround as (s' & Hround & Hq' & Hh' & Hy').
  exists s'. split; [exact Hround|].
  split; [|split; [by rewrite Hq', Hdone|split; [exact Hh'|exact Hy']]].
  split; rewrite ?Hq', ?Hdone; simpl; try reflexivity.
  intros y Hy. rewrite Hh'. apply Hq. rewrite Hx. by apply list_elem_of_further.
Qed.

(** The worker hands out every queued item once, then waits in [Get]. *)
Lemma worker_drains_settled (l : list item) (s : State) :
  settled s →
  workqueue.queued (queue (ctrl s)) = l →
  ∃ s', worker (S (length l)) s = Parked s'
    ∧ heap s' = heap s
    ∧ yielded s' = (yielded s ++ l)%list.
Proof.
  revert s. induction l as [|x rest IH]; intros s Hs Hl.
  - exists s. split; [|split; [reflexivity|by rewrite app_nil_r]].
    destruct Hs as [Hopen _ _ _].
    unfold worker. simpl. rewrite bind_unfold. unfold callLiteral.
    rewrite bind_unfold. unfold workerBody. rewrite bind_unfold.
    unfold queueGet, workqueue.Get. rewrite Hl, Hopen. reflexivity.
  - destruct (round_settled s x rest Hs Hl) as (s1 & Hround & Hs1 & Hq1 & Hh1 & Hy1).
    destruct (IH s1 Hs1 Hq1) as (s' & Hw & Hh' & Hy').
    exists s'. split; [|split].
    + unfold worker in *. simpl length.
      rewrite (forever_step _ _ s s1 Hround). exact Hw.
    + by rewrite Hh'.
    + rewrite Hy', Hy1, <- app_assoc. reflexivity.
Qed.
End consume.

(** C1, as the code has it: [n] calls of [enqueue] with the same kind,
    action and namespace on a controller with a fresh queue allocate [n]
    event structs and queue their [n] distinct addresses, because the queue
    holds pointers and compares them as such.  A worker then gets every one
    of them from [Get], each pointing to an event with the three fields, and
    waits in [Get] afterwards.  What [Add] does not repeat is the very same
    item: adding an item twice in a row is adding it once. *)
Theorem C1_equal_events_are_distinct_items `{GoLib} (n : nat)
    (objName act ns : string) (s0 : State) :
  queue (ctrl s0) = workqueue.New →
  let e := mkEvent objName act ns in
  let s := final (enqueueN n objName act ns s0) in
  let ptrs := EventPtr <$> seq (length (heap s0)) n in
  workqueue.queued (queue (ctrl s)) = ptrs
  ∧ NoDup ptrs
  ∧ (∃ s', worker (S n) s = Parked s'
           ∧ yielded s' = (yielded s0 ++ ptrs)%list
           ∧ ∀ x, x ∈ ptrs → event_at s' x = Some e)
  ∧ (∀ (x : item) (q : workqueue.Queue item),
       workqueue.Add x (workqueue.Add x q) = workqueue.Add x q).
Proof.
  intros Hnew e s ptrs.
  assert (Hs0 : settled s0).
  { split; rewrite Hnew; simpl; try reflexivity. intros x Hx. by apply elem_of_nil in Hx. }
  destruct (enqueueN_settled n objName act ns s0 Hs0) as (s1 & Hn & Hs1 & Hq1 & Hh1 & Hy1).
  assert (Hs : s = s1) by (subst s; by rewrite Hn). rewrite Hs. clear Hs s.
  rewrite Hnew in Hq1. simpl in Hq1. fold ptrs in Hq1.
  split; [exact Hq1|]. split; [|split].
  - subst ptrs. apply NoDup_fmap_2; [|apply NoDup_seq]. by intros ?? [= ->].
  - destruct (worker_drains_settled ptrs s1 Hs1 Hq1) as (s' & Hw & Hh' & Hy').
    exists s'. assert (Hlen : length ptrs = n).
    { subst ptrs. by rewrite length_fmap, length_seq. }
    rewrite Hlen in Hw. split; [exact Hw|]. split; [by rewrite Hy', Hy1|].
    intros x Hx. subst ptrs. apply list_elem_of_fmap in Hx as (p & -> & Hp).
    apply elem_of_seq in Hp as [Hlo Hhi]. simpl. rewrite Hh', Hh1.
    rewrite lookup_app_r by lia. apply lookup_replicate_2. lia.
  - intros x q. apply Add_idempotent.
Qed.

(** The same on a freshly booted state, for three calls with [pod], [add],
    [ns1]. *)
Lemma C1_equal_events_are_distinct_items_witness :
  queue (ctrl (boot net_ok)) = workqueue.New
  ∧ let e := mkEvent "pod" "add" "ns1" in
    let s := final (enqueueN 3 "pod" "add" "ns1" (boot net_ok)) in
    let ptrs := EventPtr <$> seq (length (heap (boot net_ok))) 3 in
    workqueue.queued (queue (ctrl s)) = ptrs
    ∧ NoDup ptrs
    ∧ (∃ s', @worker asciiLib 4 s = Parked s'
             ∧ yielded s' = (yielded (boot net_ok) ++ ptrs)%list
             ∧ ∀ x, x ∈ ptrs → event_at s' x = Some e)
    ∧ (∀ (x : item) (q : workqueue.Queue item),
         workqueue.Add x (workqueue.Add x q) = workqueue.Add x q).
Proof.
  split; [reflexivity|].
  apply (@C1_equal_events_are_distinct_items asciiLib 3 "pod" "add" "ns1" (boot net_ok)).
  reflexivity.
Defined.

(** C1 as stated fails: after three calls of [enqueue] with the same kind,
    action and namespace and no worker running, a worker gets an event with
    these three fields from [Get] three times, not at most twice. *)
Lemma C1_three_enqueues_yield_three_times :
  let e := mkEvent "pod" "add" "ns1" in
  let s := final ((enqueue "pod" "add" "ns1" ;;
                   enqueue "pod" "add" "ns1" ;;
                   enqueue "pod" "add" "ns1") (boot net_ok)) in
  let s' := final (@worker asciiLib 4 s) in
  yielded s = []
  ∧ yielded s' = [EventPtr 0; EventPtr 1; EventPtr 2]
  ∧ deliveries e s' = 3%nat
  ∧ ¬ (deliveries e s' ≤ 2)%nat.
Proof.
  vm_compute. repeat split; try reflexivity. intros Hle.
  repeat (apply le_S_n in Hle). inversion Hle.
Qed.

(** * Further properties of the controller *)

(** ** Run and its caller *)

Lemma forEach_logInfof {A} (v : nat) (f : A → string) (l : list A) (s : State) :
  ∃ s', forEach l (λ x, logInfof v (f x)) s = Val tt s'
    ∧ ctrl s' = ctrl s ∧ heap s' = heap s ∧ vars s' = vars s
    ∧ history s' = history s
    ∧ glog s' = (glog s ++ (Infof v ∘ f <$> l))%list.
Proof.
  revert s. induction l as [|x l IH]; intros s.
  - exists s. simpl. rewrite app_nil_r. by repeat split.
  - destruct (IH (add_log (Infof v (f x)) s)) as (s' & Hl & Hc & Hh & Hv & Hy & Hg).
    exists s'. simpl. rewrite bind_unfold. simpl.
    split; [exact Hl|]. repeat split; try assumption.
    rewrite Hg. simpl. by rewrite <- app_assoc.
Qed.

Lemma Run_val (workers : Z) (s : State) :
  ∃ s', Run workers s
        = Val (((λ kc, WatchTask kc.1 kc.2) <$> map_to_list (controllers (ctrl s)))
               ++ replicate (Z.to_nat workers) WorkerTask)%list s'
    ∧ ctrl s' = ctrl s ∧ heap s' = heap s ∧ vars s' = vars s
    ∧ history s' = history s.
Proof.
  unfold Run. rewrite bind_unfold. simpl. rewrite bind_unfold. unfold registered.
  simpl. rewrite bind_unfold.
  destruct (forEach_logInfof 5 (λ kc : string * Controller, "Starting watch for " +:+ kc.1)
              (map_to_list (controllers (ctrl s)))
              (add_log (Infof 5 ("Starting ThirdPartyAnalyticsController" +:+ newline)) s))
    as (s' & Hl & Hc & Hh & Hv & Hy & _).
  exists s'. rewrite Hl. simpl. repeat split; assumption.
Qed.

Lemma filter_worker_watchers (l : list (string * Controller)) :
  filter is_worker ((λ kc, WatchTask kc.1 kc.2) <$> l) = [].
Proof.
  induction l as [|kc l IH]; [reflexivity|].
  simpl. rewrite filter_cons_False by (simpl; tauto). exact IH.
Qed.

Lemma filter_worker_workers (n : nat) :
  filter is_worker (replicate n WorkerTask) = replicate n WorkerTask.
Proof.
  induction n as [|n IH]; [reflexivity|].
  simpl. rewrite filter_cons_True by exact I. by rewrite IH.
Qed.

Lemma watch_task_elem (m : gmap string Controller) (n : nat) (k : string) (c : Controller) :
  WatchTask k c ∈ tasks_of m n ↔ m !! k = Some c.
Proof.
  unfold tasks_of. rewrite elem_of_app, list_elem_of_fmap. split.
  - intros [([k' c'] & [= -> ->] & Hin)|Hin].
    + by apply elem_of_map_to_list.
    + apply elem_of_replicate in Hin as [? _]. discriminate.
  - intros Hk. left. exists (k, c). split; [reflexivity|].
    by apply elem_of_map_to_list.
Qed.

Lemma worker_tasks (m : gmap string Controller) (n : nat) :
  filter is_worker (tasks_of m n) = replicate n WorkerTask.
Proof.
  unfold tasks_of.
  by rewrite filter_app, filter_worker_watchers, filter_worker_workers.
Qed.

Lemma length_tasks_of (m : gmap string Controller) (n : nat) :
  length (tasks_of m n) = (size m + n)%nat.
Proof.
  unfold tasks_of.
  by rewrite length_app, length_fmap, length_replicate, length_map_to_list.
Qed.

(** X1: [Run] returns, in every state and for every number of workers, with
    one watch task for each registered controller and no other, and as
    many worker tasks as asked for (none for a number below one); it
    changes nothing of the controller, the events or the calls made: it
    only logs. *)
Theorem X1_Run_starts_a_task_per_watcher_and_worker (workers : Z) (s : State) :
  ∃ tasks s',
    Run workers s = Val tasks s'
    ∧ (∀ k c, WatchTask k c ∈ tasks ↔ controllers (ctrl s) !! k = Some c)
    ∧ filter is_worker tasks = replicate (Z.to_nat workers) WorkerTask
    ∧ length tasks = (size (controllers (ctrl s)) + Z.to_nat workers)%nat
    ∧ ((workers ≤ 0)%Z → filter is_worker tasks = [])
    ∧ ctrl s' = ctrl s ∧ heap s' = heap s ∧ history s' = history s.
Proof.
  destruct (Run_val workers s) as (s' & Hrun & Hc & Hh & _ & Hy).
  eexists _, s'. split; [exact Hrun|].
  fold (tasks_of (controllers (ctrl s)) (Z.to_nat workers)).
  split; [|split; [|split; [|split]]].
  - intros k c. apply watch_task_elem.
  - apply worker_tasks.
  - apply length_tasks_of.
  - intros Hle. rewrite worker_tasks.
    replace (Z.to_nat workers) with 0%nat by lia. reflexivity.
  - by repeat split.
Qed.

(** The controllers the constructor registers are the informers of the
    entries of [watches], each under its own key, whatever the order of the
    visit. *)
Lemma constructed_controllers (order : list (string * watchEntry)) (s : State) :
  order ≡ₚ map_to_list watches →
  controllers (ctrl (final (NewThirdPartyAnalyticsController order s)))
  = informer (length (vars s)) <$> watches.
Proof.
  intros Hperm. apply map_eq. intros k. rewrite lookup_fmap.
  destruct (controllers (ctrl (final (NewThirdPartyAnalyticsController order s))) !! k)
    as [c|] eqn:Hc.
  - destruct (NewThirdPartyAnalyticsController_lookup order s k c Hc) as (w & Hw & ->).
    rewrite Hperm in Hw. apply elem_of_map_to_list in Hw. by rewrite Hw.
  - apply not_elem_of_dom in Hc.
    rewrite (NewThirdPartyAnalyticsController_dom order s Hperm), <- dom_watches in Hc.
    apply not_elem_of_dom in Hc. by rewrite Hc.
Qed.

Lemma loop_rest (name : loc) (order : list (string * watchEntry)) (t : State) :
  let t' := foldl (registered_one name) t order in
  queue (ctrl t') = queue (ctrl t) ∧ heap t' = heap t
  ∧ history t' = history t ∧ glog t' = glog t
  ∧ length (vars t') = length (vars t).
Proof.
  revert t. induction order as [|kv order IH]; intros t; [by repeat split|].
  simpl. destruct (IH (registered_one name t kv)) as (Hq & Hh & Hy & Hg & Hv).
  simpl in *. rewrite length_insert in Hv. by repeat split.
Qed.

Lemma constructed_state (order : list (string * watchEntry)) (s : State) :
  let s' := final (NewThirdPartyAnalyticsController order s) in
  NewThirdPartyAnalyticsController order s = Val tt s'
  ∧ queue (ctrl s') = workqueue.New
  ∧ heap s' = heap s ∧ history s' = history s ∧ glog s' = glog s
  ∧ length (vars s') = S (length (vars s)).
Proof.
  intros s'. subst s'. rewrite NewThirdPartyAnalyticsController_val. simpl.
  split; [reflexivity|].
  destruct (loop_rest (length (vars s)) order (before_loop s)) as (Hq & Hh & Hy & Hg & Hv).
  simpl in *. rewrite length_app in Hv. simpl in Hv.
  repeat split; try assumption. lia.
Qed.



(** X3: the master's [RunThirdPartyAnalyticsController] starts, whatever the
    order of the visit, exactly one worker and one watch task for each of
    the ten kinds, the task of a kind running the informer of that kind's
    entry; the queue is empty when they start and no call has been made. *)
Theorem X3_master_starts_ten_watchers_and_one_worker
    (order : list (string * watchEntry)) (s : State) :
  order ≡ₚ map_to_list watches →
  ∃ tasks s',
    RunThirdPartyAnalyticsController order s = Val tasks s'
    ∧ (∀ k c, WatchTask k c ∈ tasks
              ↔ ∃ w, watches !! k = Some w ∧ c = informer (length (vars s)) w)
    ∧ (∀ k, k ∈ kinds ↔ ∃ c, WatchTask k c ∈ tasks)
    ∧ filter is_worker tasks = [WorkerTask]
    ∧ length tasks = 11%nat
    ∧ queue (ctrl s') = workqueue.New
    ∧ history s' = history s.
Proof.
  intros Hperm.
  destruct (constructed_state order s) as (Hnew & Hq & _ & Hy & _).
  pose proof (constructed_controllers order s Hperm) as Hc.
  set (s1 := final (NewThirdPartyAnalyticsController order s)) in *.
  destruct (Run_val 1 s1) as (s' & Hrun & Hc' & _ & _ & Hy').
  eexists _, s'. split.
  { unfold RunThirdPartyAnalyticsController. rewrite bind_unfold, Hnew. exact Hrun. }
  fold (tasks_of (controllers (ctrl s1)) (Z.to_nat 1)).
  assert (Hmem : ∀ k c, WatchTask k c ∈ tasks_of (controllers (ctrl s1)) (Z.to_nat 1)
                        ↔ ∃ w, watches !! k = Some w ∧ c = informer (length (vars s)) w).
  { intros k c. rewrite watch_task_elem, Hc, lookup_fmap. split.
    - destruct (watches !! k) as [w|]; [|discriminate].
      intros [= <-]. by exists w.
    - intros (w & -> & ->). reflexivity. }
  split; [exact Hmem|]. split; [|split; [|split; [|split]]].
  - intros k. rewrite <- dom_watches, elem_of_dom. split.
    + intros [w Hw]. exists (informer (length (vars s)) w). apply Hmem. by exists w.
    + intros [c Hk]. apply Hmem in Hk as (w & Hw & _). by exists w.
  - apply worker_tasks.
  - rewrite length_tasks_of, Hc, map_size_fmap.
    assert (Hsize : size watches = 10%nat) by (vm_compute; reflexivity).
    rewrite Hsize. reflexivity.
  - by rewrite Hc'.
  - by rewrite Hy'.
Qed.

(** The same for the order of the source. *)
Lemma X3_master_starts_ten_watchers_and_one_worker_witness :
  ∃ tasks s',
    RunThirdPartyAnalyticsController source_order (boot net_ok) = Val tasks s'
    ∧ (∀ k c, WatchTask k c ∈ tasks
              ↔ ∃ w, watches !! k = Some w
                     ∧ c = informer (length (vars (boot net_ok))) w)
    ∧ (∀ k, k ∈ kinds ↔ ∃ c, WatchTask k c ∈ tasks)
    ∧ filter is_worker tasks = [WorkerTask]
    ∧ length tasks = 11%nat
    ∧ queue (ctrl s') = workqueue.New
    ∧ history s' = history (boot net_ok).
Proof.
  apply (X3_master_starts_ten_watchers_and_one_worker source_order (boot net_ok)).
  apply (bool_decide_unpack (source_order ≡ₚ map_to_list watches)).
  vm_compute. exact I.
Defined.

(** ** What no method or callback does *)

Section respects.
Context (R : relation State) `{!Reflexive R, !Transitive R}.
Context (HR : step_closed R).

Lemma respects_ret {A} (a : A) : respects R (mret a).
Proof. intros s. simpl. reflexivity. Qed.

Lemma respects_panic {A} (msg : string) : respects R (@panic A msg).
Proof. intros s. simpl. reflexivity. Qed.

Lemma respects_bind {A B} (m : M A) (f : A → M B) :
  respects R m → (∀ a, respects R (f a)) → respects R (m ≫= f).
Proof.
  intros Hm Hf s. rewrite bind_unfold. specialize (Hm s).
  destruct (m s) as [a s'|msg s'|s']; simpl in *; try exact Hm.
  etrans; [exact Hm|apply Hf].
Qed.

Lemma respects_defer {A} (d : M unit) (body : M A) :
  respects R d → respects R body → respects R (defer d body).
Proof.
  intros Hd Hb s. unfold defer. specialize (Hb s).
  destruct (body s) as [a s'|msg s'|s']; simpl in *; try exact Hb.
  - rewrite bind_unfold. specialize (Hd s').
    destruct (d s') as [[] s''|msg s''|s'']; simpl in *; by etrans.
  - specialize (Hd s').
    destruct (d s') as [[] s''|msg' s''|s'']; simpl in *; by etrans.
Qed.

Lemma respects_forEach {A} (l : list A) (body : A → M unit) :
  (∀ x, respects R (body x)) → respects R (forEach l body).
Proof.
  intros Hb. induction l as [|x l IH]; simpl.
  - apply respects_ret.
  - apply respects_bind; [apply Hb|intros _; exact IH].
Qed.

Lemma respects_forever (fuel : nat) (stmt : M completion) :
  respects R stmt → respects R (forever fuel stmt).
Proof.
  intros Hs. induction fuel as [|fuel IH]; simpl.
  - apply respects_ret.
  - apply respects_bind; [exact Hs|]. intros [|]; [exact IH|apply respects_ret].
Qed.

Lemma respects_logInfof (v : nat) (msg : string) : respects R (logInfof v msg).
Proof. intros s. apply (step_log R HR). Qed.

Lemma respects_logErrorf (msg : string) : respects R (logErrorf msg).
Proof. intros s. apply (step_log R HR). Qed.

Lemma respects_queueAdd (x : item) : respects R (queueAdd x).
Proof.
  intros s. simpl. etrans; [apply (step_Add R HR x)|apply (step_call R HR)].
Qed.

Lemma respects_queueDone (x : item) : respects R (queueDone x).
Proof.
  intros s. simpl. etrans; [apply (step_Done R HR x)|apply (step_call R HR)].
Qed.

Lemma respects_queueGet : respects R queueGet.
Proof.
  intros s. unfold queueGet.
  destruct (workqueue.Get (queue (ctrl s))) as [x q'| |] eqn:Hget; simpl.
  - etrans; [apply (step_Get R HR x q' s Hget)|apply (step_call R HR)].
  - apply (step_call R HR).
  - reflexivity.
Qed.

Lemma respects_newEvent (objName act ns : string) :
  respects R (newEvent objName act ns).
Proof. intros s. apply (step_alloc R HR). Qed.

Lemma respects_deref (p : ptr) : respects R (deref p).
Proof. intros s. unfold deref. destruct (heap s !! p); simpl; reflexivity. Qed.

Lemma respects_readVar (l : loc) : respects R (readVar l).
Proof. intros s. simpl. reflexivity. Qed.

Lemma respects_httpGet (url : string) : respects R (httpGet url).
Proof. intros s. apply (step_call R HR). Qed.

Lemma respects_registered : respects R registered.
Proof. intros s. simpl. reflexivity. Qed.

Lemma respects_enqueue (objName act ns : string) :
  respects R (enqueue objName act ns).
Proof.
  unfold enqueue. apply respects_bind; [apply respects_logInfof|]. intros _.
  apply respects_bind; [apply respects_newEvent|]. intros p.
  apply respects_queueAdd.
Qed.

Lemma respects_GetNamespace (meta : option ObjectMeta) :
  respects R (GetNamespace meta).
Proof. destruct meta; simpl; [apply respects_ret|apply respects_panic]. Qed.

Lemma respects_handler_tail (meta : option ObjectMeta) (err : option error)
    (h : ResourceEventHandlerFuncs) (act : string) :
  respects R
    ((if err is Some e then logErrorf ("object has no meta: " +:+ e) else mret tt);;
     name ← readVar (captured_name h);
     ns ← GetNamespace meta;
     enqueue name act ns).
Proof.
  apply respects_bind.
  { destruct err; [apply respects_logErrorf|apply respects_ret]. }
  intros _. apply respects_bind; [apply respects_readVar|]. intros name.
  apply respects_bind; [apply respects_GetNamespace|]. intros ns.
  apply respects_enqueue.
Qed.

Lemma respects_handle (h : ResourceEventHandlerFuncs) (n : Notification) :
  respects R (handle h n).
Proof.
  destruct n as [obj|oldObj obj|obj]; simpl.
  - unfold AddFunc. destruct (Accessor obj) as [meta err].
    apply respects_handler_tail.
  - unfold UpdateFunc. destruct (Accessor obj) as [meta err].
    apply respects_handler_tail.
  - unfold DeleteFunc. destruct (Accessor (unwrap obj)) as [meta err].
    apply respects_handler_tail.
Qed.

Lemma respects_notify (kind : string) (n : Notification) :
  respects R (notify kind n).
Proof.
  intros s. unfold notify.
  destruct (controllers (ctrl s) !! kind); [apply respects_handle|simpl; reflexivity].
Qed.

Lemma respects_Run (workers : Z) : respects R (Run workers).
Proof.
  unfold Run. apply respects_bind; [apply respects_logInfof|]. intros _.
  apply respects_bind; [apply respects_registered|]. intros cs.
  apply respects_bind; [|intros _; apply respects_ret].
  apply respects_forEach. intros kc. apply respects_logInfof.
Qed.

Context `{GoLib}.

Lemma respects_TrackEvent (c : realAnalyticsTracker) (params : gmap string string)
    (method endpoint : string) :
  respects R (TrackEvent c params method endpoint).
Proof.
  unfold TrackEvent. apply respects_bind; [apply respects_logInfof|]. intros _.
  destruct (decide (method = "GET")); [|apply respects_ret].
  apply respects_bind; [apply respects_httpGet|].
  intros [err|status [data|err]]; apply respects_ret.
Qed.

Lemma respects_track (objName act ns : string) : respects R (track objName act ns).
Proof.
  unfold track. apply respects_bind; [apply respects_TrackEvent|].
  intros [e|]; apply respects_ret.
Qed.

Lemma respects_workerBody : respects R workerBody.
Proof.
  unfold workerBody. apply respects_bind; [apply respects_queueGet|].
  intros [obj|]; [|apply respects_ret].
  apply respects_defer; [apply respects_queueDone|].
  apply respects_bind; [|intros _; apply respects_ret].
  destruct obj as [p|v]; [|apply respects_ret].
  apply respects_bind; [apply respects_deref|]. intros e.
  apply respects_bind; [apply respects_track|].
  intros [msg|]; [apply respects_logErrorf|apply respects_ret].
Qed.

Lemma respects_worker (fuel : nat) : respects R (worker fuel).
Proof.
  unfold worker, callLiteral.
  apply respects_forever, respects_bind; [apply respects_workerBody|].
  intros _. apply respects_ret.
Qed.

Lemma exec_respects (op : Op) (s : State) : R s (exec op s).
Proof.
  destruct op; unfold exec.
  - apply respects_Run.
  - apply respects_notify.
  - apply respects_enqueue.
  - apply respects_track.
  - apply respects_worker.
Qed.

Lemma execAll_respects (ops : list Op) (s : State) : R s (execAll ops s).
Proof.
  revert s. induction ops as [|op ops IH]; intros s; [reflexivity|].
  unfold execAll in *. simpl. etrans; [apply exec_respects|apply IH].
Qed.
End respects.

Global Instance heap_grows_refl : Reflexive heap_grows.
Proof. intros s. unfold heap_grows. reflexivity. Qed.
Global Instance heap_grows_trans : Transitive heap_grows.
Proof. intros s1 s2 s3. unfold heap_grows. apply transitivity. Qed.

Lemma heap_grows_closed : step_closed heap_grows.
Proof.
  split; unfold heap_grows; intros; simpl; try reflexivity.
  by apply prefix_app_r.
Qed.

Global Instance same_shutdown_refl : Reflexive same_shutdown.
Proof. intros s. reflexivity. Qed.
Global Instance same_shutdown_trans : Transitive same_shutdown.
Proof. intros s1 s2 s3. unfold same_shutdown. congruence. Qed.

Lemma same_shutdown_closed : step_closed same_shutdown.
Proof.
  split; unfold same_shutdown; intros; simpl; try reflexivity.
  - unfold workqueue.Add.
    destruct (workqueue.shuttingDown (queue (ctrl s))) eqn:Hsd; [exact Hsd|].
    repeat case_match; simpl; by rewrite ?Hsd.
  - unfold workqueue.Done. case_match; reflexivity.
  - unfold workqueue.Get in *. repeat case_match; simplify_eq. reflexivity.
Qed.

Global Instance same_vars_refl : Reflexive same_vars.
Proof. intros s. reflexivity. Qed.
Global Instance same_vars_trans : Transitive same_vars.
Proof. intros s1 s2 s3. unfold same_vars. congruence. Qed.

Lemma same_vars_closed : step_closed same_vars.
Proof. split; unfold same_vars; intros; reflexivity. Qed.

(** X4: an event, once allocated, is never changed or freed: after any
    methods and callbacks of the controller, run in any number and order,
    every pointer still points to the event it pointed to, and the number of
    events has not gone down. *)
Theorem X4_events_are_immutable `{GoLib} (ops : list Op) (s : State)
    (p : ptr) (e : analyticsEvent) :
  heap s !! p = Some e →
  heap (execAll ops s) !! p = Some e
  ∧ (length (heap s) ≤ length (heap (execAll ops s)))%nat.
Proof.
  intros Hp.
  pose proof (execAll_respects heap_grows heap_grows_closed ops s) as Hpre.
  unfold heap_grows in Hpre. split.
  - by eapply prefix_lookup_Some.
  - by apply prefix_length.
Qed.

(** The same for an event enqueued before a worker, a second enqueue with
    other fields and a delete notification run. *)
Lemma X4_events_are_immutable_witness :
  let s := final (enqueue "pod" "add" "ns1" (boot net_down)) in
  let ops := [OpWorker 3; OpEnqueue "route" "update" "ns2";
              OpNotify "pod" (OnDelete (NonObject "gone"))] in
  heap s !! 0%nat = Some (mkEvent "pod" "add" "ns1")
  ∧ heap (@execAll asciiLib ops s) !! 0%nat = Some (mkEvent "pod" "add" "ns1")
  ∧ (length (heap s) ≤ length (heap (@execAll asciiLib ops s)))%nat.
Proof.
  intros s ops. split; [reflexivity|].
  apply (@X4_events_are_immutable asciiLib ops s 0%nat (mkEvent "pod" "add" "ns1")).
  reflexivity.
Defined.

(** X5: no method or callback of the controller shuts the queue down or
    reopens it: whatever [Run], the handlers, [enqueue], [track] and the
    workers do, in any number and order, the shutdown flag of the queue is
    what it was. *)
Theorem X5_controller_never_shuts_the_queue_down `{GoLib} (ops : list Op) (s : State) :
  workqueue.shuttingDown (queue (ctrl (execAll ops s)))
  = workqueue.shuttingDown (queue (ctrl s)).
Proof. apply (execAll_respects same_shutdown same_shutdown_closed ops s). Qed.

(** X6: the kind a watcher reports is fixed once the controller is built:
    no method or callback writes the variable the handlers captured, so
    after any of them, in any number and order, a notification with
    metadata is enqueued under the value the variable had before, with the
    handler's action and the namespace of the object. *)
Theorem X6_reported_kind_is_fixed_after_construction `{GoLib} (ops : list Op)
    (s : State) (h : ResourceEventHandlerFuncs) (n : Notification) (m : ObjectMeta) :
  Accessor (payload n) = (Some m, None) →
  vars (execAll ops s) = vars s
  ∧ handle h n (execAll ops s)
    = enqueue (default EmptyString (vars s !! captured_name h))
        (action_of n) (Namespace m) (execAll ops s).
Proof.
  intros Hacc.
  pose proof (execAll_respects same_vars same_vars_closed ops s) as Hv.
  unfold same_vars in Hv. split; [exact Hv|].
  rewrite (handle_with_meta h n m _ Hacc), Hv. reflexivity.
Qed.

(** The same on the constructed controller, after a worker and an enqueue
    ran, for an update of a route. *)
Lemma X6_reported_kind_is_fixed_after_construction_witness :
  let s := final (NewThirdPartyAnalyticsController source_order (boot net_ok)) in
  let ops := [OpEnqueue "pod" "add" "ns1"; OpWorker 2] in
  let n := OnUpdate (NonObject "old") (ApiObject Route (mkMeta "www" "ns2")) in
  vars (@execAll asciiLib ops s) = vars s
  ∧ handle (mkHandlers 0) n (@execAll asciiLib ops s)
    = enqueue (default EmptyString (vars s !! captured_name (mkHandlers 0)))
        (action_of n) (Namespace (mkMeta "www" "ns2")) (@execAll asciiLib ops s).
Proof.
  intros s ops n.
  apply (@X6_reported_kind_is_fixed_after_construction asciiLib ops s
           (mkHandlers 0) n (mkMeta "www" "ns2")).
  reflexivity.
Defined.

(** ** Rounds of the worker *)

Section rounds_facts.
Context `{GoLib}.

Lemma requests_after_Get (r : option item) (q : workqueue.Queue item) (s : State) :
  requests (add_call (QueueGet r) (set_queue q s)) = requests s.
Proof. rewrite requests_add_call, requests_set_queue. simpl. apply app_nil_r. Qed.

(** A round of the worker on an event, in full: the state it ends in is the
    one before with the item taken and marked done, one request sent and
    the lines of [round_log] written. *)
Lemma round_event (s : State) (p : ptr) (e : analyticsEvent)
    (q' : workqueue.Queue item) :
  workqueue.Get (queue (ctrl s)) = workqueue.Got (EventPtr p) q' →
  heap s !! p = Some e →
  ∃ s', callLiteral workerBody s = Val Normal s'
    ∧ queue (ctrl s') = workqueue.Done (EventPtr p) q'
    ∧ controllers (ctrl s') = controllers (ctrl s)
    ∧ heap s' = heap s ∧ vars s' = vars s ∧ net s' = net s
    ∧ history s'
      = (history s ++ [QueueGet (Some (EventPtr p)); HttpGet (track_url e);
                       QueueDone (EventPtr p)])%list
    ∧ glog s'
      = (glog s ++ round_log e (net s (length (requests s)) (track_url e)))%list.
Proof.
  intros Hget Hp.
  destruct (track (objectName e) (action e) (namespace e)
              (add_call (QueueGet (Some (EventPtr p))) (set_queue q' s)))
    as [err s2|msg s2|s2] eqn:Htrack;
    pose proof Htrack as Htrack';
    rewrite track_val in Htrack'; simpl in Htrack'; try discriminate.
  rewrite requests_after_Get in Htrack'.
  fold (track_url e) in Htrack'.
  injection Htrack' as Herr Hs2.
  destruct (net s (length (requests s)) (track_url e)) as [terr|status [data|rerr]];
    simpl in Herr; subst err; eexists;
    (split;
     [ unfold callLiteral, workerBody; rewrite !bind_unfold;
       unfold queueGet; rewrite Hget; unfold defer; rewrite !bind_unfold;
       rewrite (deref_val p e
                  (add_call (QueueGet (Some (EventPtr p))) (set_queue q' s)) Hp),
               bind_unfold, Htrack; reflexivity
     | subst s2; simpl; unfold round_log;
       repeat split; rewrite <- ?app_assoc; reflexivity ]).
Qed.
End rounds_facts.

Lemma settled_Get (s : State) (x : item) (rest : list item) :
  settled s →
  workqueue.queued (queue (ctrl s)) = x :: rest →
  workqueue.Get (queue (ctrl s))
  = workqueue.Got x (workqueue.mkQueue rest {[x]} ∅ false)
  ∧ workqueue.Done x (workqueue.mkQueue rest {[x]} ∅ false)
    = workqueue.mkQueue rest ∅ ∅ false.
Proof.
  intros [Hopen Hfl Hd Hq] Hx. split.
  - unfold workqueue.Get. rewrite Hx, Hfl, Hd, Hopen.
    by rewrite (right_id_L ∅ (∪)).
  - unfold workqueue.Done. simpl.
    rewrite bool_decide_eq_false_2 by set_solver.
    f_equal. set_solver.
Qed.

Lemma enqueue_requests (objName act ns : string) (s : State) :
  requests (final (enqueue objName act ns s)) = requests s.
Proof.
  rewrite enqueue_val. simpl. rewrite requests_add_call. simpl.
  rewrite app_nil_r. reflexivity.
Qed.

Lemma enqueueAll_settled (es : list analyticsEvent) (s : State) :
  settled s →
  ∃ s', enqueueAll es s = Val tt s'
    ∧ settled s'
    ∧ workqueue.queued (queue (ctrl s'))
      = (workqueue.queued (queue (ctrl s))
         ++ (EventPtr <$> seq (length (heap s)) (length es)))%list
    ∧ heap s' = (heap s ++ es)%list
    ∧ yielded s' = yielded s
    ∧ requests s' = requests s.
Proof.
  revert s. induction es as [|e es IH]; intros s Hs.
  - exists s. simpl. rewrite !app_nil_r.
    split; [reflexivity|split; [exact Hs|by repeat split]].
  - destruct (enqueue_settled (objectName e) (action e) (namespace e) s Hs)
      as (s1 & He & Hs1 & Hq1 & Hh1 & Hy1).
    pose proof (enqueue_requests (objectName e) (action e) (namespace e) s) as Hr1.
    rewrite He in Hr1. simpl in Hr1.
    destruct (IH s1 Hs1) as (s' & Hn & Hs' & Hq' & Hh' & Hy' & Hr').
    exists s'. split; [|split; [exact Hs'|split; [|split; [|split]]]].
    + unfold enqueueAll in *. simpl. rewrite bind_unfold, He. exact Hn.
    + rewrite Hq', Hq1, Hh1, length_app, <- app_assoc. simpl.
      by rewrite Nat.add_1_r.
    + rewrite Hh', Hh1, <- app_assoc. by destruct e.
    + by rewrite Hy'.
    + by rewrite Hr'.
Qed.

Section delivery.
Context `{GoLib}.

Lemma drain_events (es pre : list analyticsEvent) (s : State) :
  settled s →
  heap s = (pre ++ es)%list →
  workqueue.queued (queue (ctrl s)) = EventPtr <$> seq (length pre) (length es) →
  ∃ s', worker (S (length es)) s = Parked s'
    ∧ heap s' = heap s
    ∧ yielded s' = (yielded s ++ (EventPtr <$> seq (length pre) (length es)))%list
    ∧ requests s' = (requests s ++ (HttpGet ∘ track_url <$> es))%list
    ∧ workqueue.queued (queue (ctrl s')) = []
    ∧ workqueue.inFlight (queue (ctrl s')) = ∅.
Proof.
  revert pre s. induction es as [|e es IH]; intros pre s Hs Hheap Hq.
  - exists s. simpl in *. rewrite !app_nil_r.
    split; [|split; [reflexivity|split; [reflexivity|split; [reflexivity|]]]].
    + destruct Hs as [Hopen _ _ _].
      unfold worker. simpl. rewrite bind_unfold. unfold callLiteral.
      rewrite bind_unfold. unfold workerBody. rewrite bind_unfold.
      unfold queueGet, workqueue.Get. rewrite Hq, Hopen. reflexivity.
    + split; [exact Hq|]. by destruct Hs.
  - simpl in Hq.
    destruct (settled_Get s _ _ Hs Hq) as [Hget Hdone].
    assert (Hp : heap s !! length pre = Some e).
    { rewrite Hheap. by apply list_lookup_middle. }
    destruct (round_event s (length pre) e _ Hget Hp)
      as (s1 & Hround & Hq1 & _ & Hh1 & _ & _ & Hy1 & _).
    rewrite Hdone in Hq1.
    assert (Hs1 : settled s1).
    { destruct Hs as [Hopen Hfl Hd Hall].
      split; rewrite Hq1; simpl; try reflexivity.
      intros x Hx. rewrite Hh1. apply Hall. rewrite Hq. by apply list_elem_of_further. }
    destruct (IH (pre ++ [e])%list s1 Hs1) as (s' & Hw & Hh' & Hyl & Hr' & Hq' & Hf').
    { rewrite Hh1, Hheap, <- app_assoc. reflexivity. }
    { rewrite Hq1, length_app. simpl. by rewrite Nat.add_1_r. }
    exists s'. split; [|split; [|split; [|split; [|split]]]].
    + unfold worker in *. simpl length.
      rewrite (forever_step _ _ s s1 Hround). exact Hw.
    + by rewrite Hh'.
    + rewrite Hyl. unfold yielded at 1. rewrite Hy1, omap_app. simpl.
      fold (yielded s). rewrite length_app, <- app_assoc. simpl.
      by rewrite Nat.add_1_r.
    + rewrite Hr'. unfold requests at 1. rewrite Hy1, filter_app.
      fold (requests s). rewrite <- app_assoc. reflexivity.
    + exact Hq'.
    + exact Hf'.
Qed.
End delivery.

(** X7: a single worker delivers what was enqueued, in the order it was
    enqueued: after [enqueue] was called for the events of a list on a
    fresh queue, whatever their fields, the worker gets from [Get] the
    pointers to exactly these events in that order, sends one request per
    event in the same order, whatever the network answers, and then waits
    in [Get] with the queue empty and nothing in flight. *)
Theorem X7_worker_delivers_in_enqueue_order `{GoLib} (es : list analyticsEvent)
    (s0 : State) :
  queue (ctrl s0) = workqueue.New →
  let s := final (enqueueAll es s0) in
  let ptrs := EventPtr <$> seq (length (heap s0)) (length es) in
  ∃ s',
    worker (S (length es)) s = Parked s'
    ∧ yielded s' = (yielded s0 ++ ptrs)%list
    ∧ event_at s' <$> ptrs = Some <$> es
    ∧ requests s' = (requests s0 ++ (HttpGet ∘ track_url <$> es))%list
    ∧ workqueue.queued (queue (ctrl s')) = []
    ∧ workqueue.inFlight (queue (ctrl s')) = ∅.
Proof.
  intros Hnew s ptrs.
  assert (Hs0 : settled s0).
  { split; rewrite Hnew; simpl; try reflexivity. intros x Hx. by apply elem_of_nil in Hx. }
  destruct (enqueueAll_settled es s0 Hs0) as (s1 & Hn & Hs1 & Hq1 & Hh1 & Hy1 & Hr1).
  assert (Hs : s = s1) by (subst s; by rewrite Hn). rewrite Hs. clear Hs s.
  rewrite Hnew in Hq1. simpl in Hq1.
  destruct (drain_events es (heap s0) s1 Hs1 Hh1 Hq1) as (s' & Hw & Hh' & Hy' & Hr' & Hq' & Hf').
  exists s'. split; [exact Hw|]. split; [by rewrite Hy', Hy1|].
  split; [|split; [by rewrite Hr', Hr1|by split]].
  subst ptrs. rewrite <- list_fmap_compose.
  apply list_eq. intros i. rewrite !list_lookup_fmap.
  destruct (decide (i < length es)%nat) as [Hlt|Hge].
  - rewrite lookup_seq_lt by exact Hlt. simpl. rewrite Hh', Hh1.
    rewrite lookup_app_r by lia.
    replace (length (heap s0) + i - length (heap s0))%nat with i by lia.
    destruct (lookup_lt_is_Some_2 es i Hlt) as [e He]. by rewrite He.
  - rewrite lookup_seq_ge by lia. rewrite lookup_ge_None_2 by lia. reflexivity.
Qed.

(** The same for three different events on a freshly booted state. *)
Lemma X7_worker_delivers_in_enqueue_order_witness :
  let es := [mkEvent "pod" "add" "ns1"; mkEvent "route" "update" "ns2";
             mkEvent "pod" "add" "ns1"] in
  let s := final (enqueueAll es (boot net_500)) in
  let ptrs := EventPtr <$> seq (length (heap (boot net_500))) (length es) in
  ∃ s',
    @worker asciiLib (S (length es)) s = Parked s'
    ∧ yielded s' = (yielded (boot net_500) ++ ptrs)%list
    ∧ event_at s' <$> ptrs = Some <$> es
    ∧ requests s'
      = (requests (boot net_500) ++ (HttpGet ∘ @track_url asciiLib <$> es))%list
    ∧ workqueue.queued (queue (ctrl s')) = []
    ∧ workqueue.inFlight (queue (ctrl s')) = ∅.
Proof.
  intros es.
  apply (@X7_worker_delivers_in_enqueue_order asciiLib es (boot net_500)).
  reflexivity.
Defined.

(** X8: a round of the worker on a dequeued event, for every answer of the
    network: the round ends normally, with exactly one request sent and
    [Done] called once, after which the item is not in flight.  It writes
    no error line when a response came and its body could be read, whatever
    the status; for a transport error it writes one error line that carries
    the event's fields and the error wrapped by [track]; for a body that
    cannot be read, the error wrapped by [TrackEvent] and then by [track].
    The loop then goes on. *)
Theorem X8_worker_round_for_every_answer `{GoLib} (fuel : nat) (s : State)
    (p : ptr) (e : analyticsEvent) (q' : workqueue.Queue item) :
  workqueue.Get (queue (ctrl s)) = workqueue.Got (EventPtr p) q' →
  heap s !! p = Some e →
  ∃ s',
    callLiteral workerBody s = Val Normal s'
    ∧ history s'
      = (history s ++ [QueueGet (Some (EventPtr p)); HttpGet (track_url e);
                       QueueDone (EventPtr p)])%list
    ∧ glog s'
      = (glog s
         ++ Infof 3 ("Tracking data: "
                     +:+ Encode (map_fold urlAdd ∅
                                   (trackParams (objectName e) (action e) (namespace e))))
            :: match net s (length (requests s)) (track_url e) with
               | TransportError err =>
                   [Errorf ("Error tracking event: " +:+ objectName e +:+ " "
                            +:+ action e +:+ " " +:+ namespace e +:+ " "
                            +:+ "Error sending track event: " +:+ err)]
               | Response _ (ReadErr err) =>
                   [Errorf ("Error tracking event: " +:+ objectName e +:+ " "
                            +:+ action e +:+ " " +:+ namespace e +:+ " "
                            +:+ "Error sending track event: "
                            +:+ "error tracking event: " +:+ err)]
               | Response _ (ReadOk _) => []
               end)%list
    ∧ (EventPtr p ∉ workqueue.inFlight (queue (ctrl s')))
    ∧ worker (S fuel) s = worker fuel s'.
Proof.
  intros Hget Hp.
  destruct (round_event s p e q' Hget Hp)
    as (s' & Hround & Hq & _ & _ & _ & _ & Hy & Hg).
  exists s'. split; [exact Hround|]. split; [exact Hy|]. split; [exact Hg|].
  split; [rewrite Hq; apply Done_not_inFlight|].
  unfold worker. apply forever_step. exact Hround.
Qed.

(** The same for one queued event and an endpoint that answers 500. *)
Lemma X8_worker_round_for_every_answer_witness :
  let s := final (enqueue "pod" "add" "ns1" (boot net_500)) in
  let e := mkEvent "pod" "add" "ns1" in
  ∃ s',
    callLiteral (@workerBody asciiLib) s = Val Normal s'
    ∧ history s'
      = (history s ++ [QueueGet (Some (EventPtr 0)); HttpGet (@track_url asciiLib e);
                       QueueDone (EventPtr 0)])%list
    ∧ glog s'
      = (glog s
         ++ Infof 3 ("Tracking data: "
                     +:+ @Encode asciiLib
                           (map_fold urlAdd ∅
                              (@trackParams asciiLib (objectName e) (action e) (namespace e))))
            :: match net s (length (requests s)) (@track_url asciiLib e) with
               | TransportError err =>
                   [Errorf ("Error tracking event: " +:+ objectName e +:+ " "
                            +:+ action e +:+ " " +:+ namespace e +:+ " "
                            +:+ "Error sending track event: " +:+ err)]
               | Response _ (ReadErr err) =>
                   [Errorf ("Error tracking event: " +:+ objectName e +:+ " "
                            +:+ action e +:+ " " +:+ namespace e +:+ " "
                            +:+ "Error sending track event: "
                            +:+ "error tracking event: " +:+ err)]
               | Response _ (ReadOk _) => []
               end)%list
    ∧ (EventPtr 0 ∉ workqueue.inFlight (queue (ctrl s')))
    ∧ @worker asciiLib 2 s = @worker asciiLib 1 s'.
Proof.
  intros s e.
  apply (@X8_worker_round_for_every_answer asciiLib 1 s 0%nat e
           (workqueue.mkQueue [] {[EventPtr 0]} ∅ false)).
  - vm_compute. reflexivity.
  - reflexivity.
Defined.



(** ** The tracker and the handlers *)

(** X10: [TrackEvent] sends something only for the method [GET]: for any
    other method it writes its line, sends no request and returns [nil],
    whatever the parameters, the endpoint and the state of the network. *)
Theorem X10_TrackEvent_sends_nothing_unless_GET `{GoLib} (c : realAnalyticsTracker)
    (params : gmap string string) (method endpoint : string) (s : State) :
  method ≠ "GET" →
  ∃ s',
    TrackEvent c params method endpoint s = Val None s'
    ∧ history s' = history s
    ∧ requests s' = requests s
    ∧ glog s'
      = (glog s ++ [Infof 3 ("Tracking data: " +:+ Encode (map_fold urlAdd ∅ params))])%list.
Proof.
  intros Hm. eexists. split.
  { unfold TrackEvent. rewrite bind_unfold. simpl.
    destruct (decide (method = "GET")) as [Heq|_]; [contradiction|]. reflexivity. }
  by repeat split.
Qed.

(** The same for [POST]. *)
Lemma X10_TrackEvent_sends_nothing_unless_GET_witness :
  ∃ s',
    @TrackEvent asciiLib NewAnalyticsTracker (@trackParams asciiLib "pod" "add" "ns1")
      "POST" woopra (boot net_down) = Val None s'
    ∧ history s' = history (boot net_down)
    ∧ requests s' = requests (boot net_down)
    ∧ glog s'
      = (glog (boot net_down)
         ++ [Infof 3 ("Tracking data: "
                      +:+ @Encode asciiLib
                            (map_fold urlAdd ∅ (@trackParams asciiLib "pod" "add" "ns1")))])%list.
Proof.
  apply (@X10_TrackEvent_sends_nothing_unless_GET asciiLib NewAnalyticsTracker
           (@trackParams asciiLib "pod" "add" "ns1") "POST" woopra (boot net_down)).
  discriminate.
Defined.

(** X11: the values [TrackEvent] encodes are the parameters it was given:
    for every map of parameters, the [url.Values] it builds has the same
    keys, each with exactly the one value of the parameter, so no
    parameter is lost, repeated or merged with another. *)
Theorem X11_TrackEvent_encodes_each_parameter_once (params : gmap string string) :
  dom (map_fold urlAdd ∅ params) = dom params
  ∧ (∀ k v, params !! k = Some v ↔ map_fold urlAdd ∅ params !! k = Some [v])
  ∧ (∀ k, params !! k = None ↔ map_fold urlAdd ∅ params !! k = None).
Proof.
  rewrite urlParams_singletons. split; [|split].
  - apply dom_fmap_L.
  - intros k v. rewrite lookup_fmap. destruct (params !! k); simpl; naive_solver.
  - intros k. rewrite lookup_fmap. destruct (params !! k); simpl; naive_solver.
Qed.

(** X12: an add or update notification whose (new) object has metadata
    makes the handler allocate one event with the action [add] or [update]
    and the namespace of that object, add it to the queue, and log the
    enqueue at verbosity 3 and nothing else; the old object of an update
    plays no part, with or without metadata. *)
Theorem X12_add_and_update_enqueue_their_action (h : ResourceEventHandlerFuncs)
    (obj : Object) (m : ObjectMeta) (s : State) :
  Accessor obj = (Some m, None) →
  let kind := default EmptyString (vars s !! captured_name h) in
  let after (act : string) (r : Res unit) :=
    ∃ s', r = Val tt s'
      ∧ heap s' = (heap s ++ [mkEvent kind act (Namespace m)])%list
      ∧ history s' = (history s ++ [QueueAdd (EventPtr (length (heap s)))])%list
      ∧ queue (ctrl s') = workqueue.Add (EventPtr (length (heap s))) (queue (ctrl s))
      ∧ glog s'
        = (glog s ++ [Infof 3 ("Enqueueing for tracking " +:+ kind +:+ " "
                               +:+ act +:+ " " +:+ Namespace m)])%list in
  after "add" (AddFunc h obj s)
  ∧ ∀ oldObj, after "update" (UpdateFunc h oldObj obj s).
Proof.
  intros Hacc kind after. split.
  - pose proof (handle_with_meta h (OnAdd obj) m s Hacc) as Hh. simpl in Hh.
    rewrite enqueue_val in Hh. eexists. split; [exact Hh|]. by repeat split.
  - intros oldObj.
    pose proof (handle_with_meta h (OnUpdate oldObj obj) m s Hacc) as Hh. simpl in Hh.
    rewrite enqueue_val in Hh. eexists. split; [exact Hh|]. by repeat split.
Qed.

(** The same for a service in namespace [ns1], the old object being a value
    without metadata. *)
Lemma X12_add_and_update_enqueue_their_action_witness :
  let s := boot net_ok in
  let obj := ApiObject Service (mkMeta "db" "ns1") in
  (∃ s', AddFunc (mkHandlers 0) obj s = Val tt s'
     ∧ heap s' = [mkEvent EmptyString "add" "ns1"])
  ∧ (∃ s', UpdateFunc (mkHandlers 0) (NonObject "old") obj s = Val tt s'
       ∧ heap s' = [mkEvent EmptyString "update" "ns1"]).
Proof.
  intros s obj.
  destruct (X12_add_and_update_enqueue_their_action (mkHandlers 0) obj
              (mkMeta "db" "ns1") s eq_refl) as [Hadd Hupd].
  split.
  - destruct Hadd as (s' & Hr & Hh & _). exists s'. split; [exact Hr|exact Hh].
  - destruct (Hupd (NonObject "old")) as (s' & Hr & Hh & _).
    exists s'. split; [exact Hr|exact Hh].
Defined.

(** * The master configuration *)

Module master_facts.
Import master.

(** X13: [attemptToLoadRecycler] returns no error exactly when the file
    loads and the pod has one volume, and then the pod, as loaded, is the
    template of the config, whose timeouts are kept; in every other case
    the config is left as it was, and the error is the one of the load or
    the message that states how many volumes were found. *)
Theorem X13_attemptToLoadRecycler_sets_template_or_fails (w : World)
    (path : string) (config : VolumeConfig) :
  let r := attemptToLoadRecycler w path config in
  let err := r.1.1 in
  let config' := r.1.2 in
  (err = None ↔ ∃ pod, LoadPodFromFile w path = inl pod ∧ length (Volumes pod) = 1%nat)
  ∧ (∀ pod, LoadPodFromFile w path = inl pod → length (Volumes pod) = 1%nat →
       config' = mkVolumeConfig (RecyclerMinimumTimeout config)
                   (RecyclerTimeoutIncrement config) (Some pod))
  ∧ (err ≠ None → config' = config)
  ∧ (∀ e, LoadPodFromFile w path = inr e → err = Some e)
  ∧ (∀ pod, LoadPodFromFile w path = inl pod → length (Volumes pod) ≠ 1%nat →
       err = Some ("Recycler pod is expected to have exactly 1 volume to scrub, but found "
                   +:+ pretty (length (Volumes pod)))).
Proof.
  unfold attemptToLoadRecycler.
  destruct (LoadPodFromFile w path) as [pod|e]; simpl.
  - destruct (decide (length (Volumes pod) ≠ 1%nat)) as [Hne|Heq]; simpl.
    + split; [|split; [|split; [|split]]].
      * split; [discriminate|]. intros (pod' & [= <-] & Hlen). contradiction.
      * intros pod' [= <-] Hlen. contradiction.
      * reflexivity.
      * discriminate.
      * by intros pod' [= <-] _.
    + apply dec_stable in Heq. split; [|split; [|split; [|split]]].
      * split; [|reflexivity]. intros _. by exists pod.
      * by intros pod' [= <-] _.
      * intros Hn. by destruct Hn.
      * discriminate.
      * intros pod' [= <-] Hne. contradiction.
  - split; [|split; [|split; [|split]]].
    + split; [discriminate|]. by intros (pod & Hpod & _).
    + discriminate.
    + reflexivity.
    + by intros e' [= <-].
    + discriminate.
Qed.

Lemma attemptToLoadRecycler_ok (w : World) (path : string) (config : VolumeConfig)
    (config' : VolumeConfig) (logs : list LogLine) :
  attemptToLoadRecycler w path config = (None, config', logs) →
  ∃ pod, LoadPodFromFile w path = inl pod ∧ length (Volumes pod) = 1%nat
         ∧ config' = mkVolumeConfig (RecyclerMinimumTimeout config)
                       (RecyclerTimeoutIncrement config) (Some pod).
Proof.
  unfold attemptToLoadRecycler.
  destruct (LoadPodFromFile w path) as [pod|e]; [|discriminate].
  destruct (decide (length (Volumes pod) ≠ 1%nat)) as [Hne|Heq]; [discriminate|].
  apply dec_stable in Heq. intros [= <- _]. by exists pod.
Qed.
(** The pod the recycler uses when no template file is given: the template
    of the volume package in the namespace asked for, its first container
    running the recycler image. *)
Lemma scrub_pod_or_panic (w : World) (c : ControllerManager) (image ns : string) :
  Containers (NewPersistentVolumeRecyclerPodTemplate w) = [] →
  RunPersistentVolumeClaimRecycler w c image ns = mkTrace IndexOutOfRange [] [].
Proof. intros Hc. unfold RunPersistentVolumeClaimRecycler. by rewrite Hc. Qed.

(** X14: whenever [RunPersistentVolumeClaimRecycler] gets the recycler
    running, the plugins are those of host path, NFS, AWS, GCE and Cinder in
    this order; the host path and NFS plugins have the timeouts of their own
    flags; the pod of each is, when its template file path is set, the pod
    of that file as loaded, with one volume (image name and namespace are
    not applied to it), and otherwise the template of the volume package
    put in the namespace asked for, its first container running the
    recycler image with command [/usr/bin/recycle /scrub] as user 0.  No
    file is read but those whose path is set, host path first. *)
Theorem X14_recycler_pods_come_from_file_or_scrub_template (w : World)
    (c : ControllerManager) (image ns : string) (args : RecyclerArgs) :
  outcome (RunPersistentVolumeClaimRecycler w c image ns) = Running args →
  let flags := VolumeConfigFlags_ c in
  let template := NewPersistentVolumeRecyclerPodTemplate w in
  let pod_for (path : string) (t : option Pod) : Prop :=
    if decide (String.length path ≠ 0%nat) then
      ∃ pod, LoadPodFromFile w path = inl pod
             ∧ length (Volumes pod) = 1%nat ∧ t = Some pod
    else
      ∃ c0 others, Containers template = c0 :: others
        ∧ t = Some (mkPod ns (Name template) (Volumes template)
                      (mkContainer image ["/usr/bin/recycle"] ["/scrub"]
                         (Some (mkSecurityContext (Some 0%Z))) "IfNotPresent"
                         (ContainerRest c0) :: others)
                      (PodRest template)) in
  ∃ hostPathConfig nfsConfig,
    allPlugins args = [host_path hostPathConfig; nfs nfsConfig; aws_ebs; gce_pd; cinder]
    ∧ RecyclerMinimumTimeout hostPathConfig
      = PersistentVolumeRecyclerMinimumTimeoutHostPath flags
    ∧ RecyclerTimeoutIncrement hostPathConfig
      = PersistentVolumeRecyclerIncrementTimeoutHostPath flags
    ∧ pod_for (PersistentVolumeRecyclerPodTemplateFilePathHostPath flags)
        (RecyclerPodTemplate hostPathConfig)
    ∧ RecyclerMinimumTimeout nfsConfig = PersistentVolumeRecyclerMinimumTimeoutNFS flags
    ∧ RecyclerTimeoutIncrement nfsConfig
      = PersistentVolumeRecyclerIncrementTimeoutNFS flags
    ∧ pod_for (PersistentVolumeRecyclerPodTemplateFilePathNFS flags)
        (RecyclerPodTemplate nfsConfig)
    ∧ syncPeriod args = PVClaimBinderSyncPeriod c
    ∧ maximumRetry args = PersistentVolumeRecyclerMaximumRetry flags
    ∧ NewPersistentVolumeRecycler w args = None
    ∧ loaded (RunPersistentVolumeClaimRecycler w c image ns)
      = ((if decide (String.length (PersistentVolumeRecyclerPodTemplateFilePathHostPath flags)
                     ≠ 0%nat)
          then [PersistentVolumeRecyclerPodTemplateFilePathHostPath flags] else [])
         ++ (if decide (String.length (PersistentVolumeRecyclerPodTemplateFilePathNFS flags)
                        ≠ 0%nat)
             then [PersistentVolumeRecyclerPodTemplateFilePathNFS flags] else []))%list.
Proof.
  intros Hrun flags template pod_for. subst pod_for. revert Hrun.
  unfold RunPersistentVolumeClaimRecycler. fold template. fold flags.
  destruct (Containers template) as [|c0 others] eqn:Hcs; [discriminate|].
  set (scrub := mkPod ns (Name template) (Volumes template)
                  (scrubContainer image c0 :: others) (PodRest template)).
  set (pathH := PersistentVolumeRecyclerPodTemplateFilePathHostPath flags).
  set (pathN := PersistentVolumeRecyclerPodTemplateFilePathNFS flags).
  destruct (decide (String.length pathH ≠ 0%nat)) as [HH|HH].
  - destruct (attemptToLoadRecycler w pathH _) as [[[errH|] cfgH] logH] eqn:HaH;
      [discriminate|].
    apply attemptToLoadRecycler_ok in HaH as (podH & HlH & HvH & ->).
    destruct (decide (String.length pathN ≠ 0%nat)) as [HN|HN].
    + destruct (attemptToLoadRecycler w pathN _) as [[[errN|] cfgN] logN] eqn:HaN;
        [discriminate|].
      apply attemptToLoadRecycler_ok in HaN as (podN & HlN & HvN & ->).
      destruct (NewPersistentVolumeRecycler w _) eqn:Hnew; [discriminate|].
      intros [= <-]. eexists _, _. simpl.
      repeat split; try reflexivity; try exact Hnew; by eexists.
    + destruct (NewPersistentVolumeRecycler w _) eqn:Hnew; [discriminate|].
      intros [= <-]. eexists _, _. simpl.
      repeat split; try reflexivity; try exact Hnew; [by eexists|].
      by exists c0, others.
  - destruct (decide (String.length pathN ≠ 0%nat)) as [HN|HN].
    + destruct (attemptToLoadRecycler w pathN _) as [[[errN|] cfgN] logN] eqn:HaN;
        [discriminate|].
      apply attemptToLoadRecycler_ok in HaN as (podN & HlN & HvN & ->).
      destruct (NewPersistentVolumeRecycler w _) eqn:Hnew; [discriminate|].
      intros [= <-]. eexists _, _. simpl.
      repeat split; try reflexivity; try exact Hnew; [|by eexists].
      by exists c0, others.
    + destruct (NewPersistentVolumeRecycler w _) eqn:Hnew; [discriminate|].
      intros [= <-]. eexists _, _. simpl.
      repeat split; try reflexivity; try exact Hnew; by exists c0, others.
Qed.
(** The same with a template file for host path and none for NFS: the host
    path plugin gets the pod of the file, the NFS plugin the scrub pod in
    the namespace asked for. *)
Lemma X14_recycler_pods_come_from_file_or_scrub_template_witness :
  let c := example_manager "/etc/origin/hostpath-recycler.yaml" EmptyString in
  let t := RunPersistentVolumeClaimRecycler example_world c
             "openshift/origin-recycler" "openshift-infra" in
  ∃ args hostPathConfig nfsConfig,
    outcome t = Running args
    ∧ allPlugins args = [host_path hostPathConfig; nfs nfsConfig; aws_ebs; gce_pd; cinder]
    ∧ RecyclerPodTemplate hostPathConfig = Some example_custom_pod
    ∧ Namespace <$> RecyclerPodTemplate nfsConfig = Some "openshift-infra"
    ∧ loaded t = ["/etc/origin/hostpath-recycler.yaml"].
Proof.
  intros c t.
  assert (Hrun : ∃ args, outcome t = Running args) by (eexists; reflexivity).
  destruct Hrun as [args Hrun].
  destruct (X14_recycler_pods_come_from_file_or_scrub_template example_world c
              "openshift/origin-recycler" "openshift-infra" args Hrun)
    as (hp & nf & Hall & _ & _ & Hhp & _ & _ & Hnf & _ & _ & _ & Hl).
  exists args, hp, nf. simpl in Hhp, Hnf.
  destruct Hhp as (pod & [= <-] & _ & Hhp).
  destruct Hnf as (c0 & others & _ & Hnf).
  split; [exact Hrun|]. split; [exact Hall|]. split; [exact Hhp|].
  split; [by rewrite Hnf|]. exact Hl.
Defined.

(** X15: a template file whose path is set and that cannot serve ends the
    process: for the host path file the message names host path, the file
    and the error, and neither the NFS file is read nor the recycler
    built; the NFS file is treated likewise once the host path one is
    unset or served. *)
Theorem X15_unusable_template_file_is_fatal (w : World) (c : ControllerManager)
    (image ns : string) (c0 : Container) (others : list Container) (err : error) :
  Containers (NewPersistentVolumeRecyclerPodTemplate w) = c0 :: others →
  let flags := VolumeConfigFlags_ c in
  let pathH := PersistentVolumeRecyclerPodTemplateFilePathHostPath flags in
  let pathN := PersistentVolumeRecyclerPodTemplateFilePathNFS flags in
  let t := RunPersistentVolumeClaimRecycler w c image ns in
  (String.length pathH ≠ 0%nat → unusable w pathH err →
     outcome t = Fatal ("Could not create hostpath recycler pod from file "
                        +:+ pathH +:+ ": " +:+ err)
     ∧ loaded t = [pathH])
  ∧ (String.length pathH = 0%nat
     ∨ (∃ pod, LoadPodFromFile w pathH = inl pod ∧ length (Volumes pod) = 1%nat) →
     String.length pathN ≠ 0%nat → unusable w pathN err →
     outcome t = Fatal ("Could not create NFS recycler pod from file "
                        +:+ pathN +:+ ": " +:+ err)
     ∧ last (loaded t) = Some pathN).
Proof.
  intros Hcs flags pathH pathN t.
  assert (Hattempt : ∀ path cfg, unusable w path err →
            ∃ logs, attemptToLoadRecycler w path cfg = (Some err, cfg, logs)).
  { intros path cfg [Hl|(pod & Hl & Hlen & ->)]; unfold attemptToLoadRecycler; rewrite Hl.
    - by eexists.
    - rewrite decide_True by exact Hlen. by eexists. }
  assert (Hserved : ∀ path cfg pod, LoadPodFromFile w path = inl pod →
            length (Volumes pod) = 1%nat →
            ∃ cfg' logs, attemptToLoadRecycler w path cfg = (None, cfg', logs)).
  { intros path cfg pod Hl Hlen. unfold attemptToLoadRecycler. rewrite Hl.
    rewrite decide_False by (intros Hn; by apply Hn). by eexists _, _. }
  subst t. unfold RunPersistentVolumeClaimRecycler. rewrite Hcs.
  fold flags. fold pathH. fold pathN. split.
  - intros HH Hbad. rewrite !(decide_True _ _ HH).
    destruct (Hattempt pathH
                (mkVolumeConfig (PersistentVolumeRecyclerMinimumTimeoutHostPath flags)
                   (PersistentVolumeRecyclerIncrementTimeoutHostPath flags)
                   (Some (mkPod ns (Name (NewPersistentVolumeRecyclerPodTemplate w))
                            (Volumes (NewPersistentVolumeRecyclerPodTemplate w))
                            (scrubContainer image c0 :: others)
                            (PodRest (NewPersistentVolumeRecyclerPodTemplate w)))))
                Hbad) as [logs ->].
    by split.
  - intros HH HN Hbad. rewrite !(decide_True _ _ HN).
    destruct HH as [HH|(pod & Hl & Hlen)].
    + rewrite !decide_False by (intros Hn; by apply Hn).
      match goal with
      | |- context [attemptToLoadRecycler w pathN ?cfg] =>
          destruct (Hattempt pathN cfg Hbad) as [logs ->]
      end.
      by split.
    + destruct (decide (String.length pathH ≠ 0%nat)) as [HH|HH].
      * match goal with
        | |- context [attemptToLoadRecycler w pathH ?cfg] =>
            destruct (Hserved pathH cfg pod Hl Hlen) as (cfg' & logsH & ->)
        end.
        match goal with
        | |- context [attemptToLoadRecycler w pathN ?cfg] =>
            destruct (Hattempt pathN cfg Hbad) as [logs ->]
        end.
        by split.
      * match goal with
        | |- context [attemptToLoadRecycler w pathN ?cfg] =>
            destruct (Hattempt pathN cfg Hbad) as [logs ->]
        end.
        by split.
Qed.

(** The same for a host path file that is missing and for an NFS file with
    two volumes. *)
Lemma X15_unusable_template_file_is_fatal_witness :
  (let c := example_manager "/etc/origin/missing.yaml" "/etc/origin/two-volumes.yaml" in
   let t := RunPersistentVolumeClaimRecycler example_world c "image" "ns" in
   outcome t
   = Fatal ("Could not create hostpath recycler pod from file /etc/origin/missing.yaml: "
            +:+ "open /etc/origin/missing.yaml: no such file or directory")
   ∧ loaded t = ["/etc/origin/missing.yaml"])
  ∧ (let c := example_manager EmptyString "/etc/origin/two-volumes.yaml" in
     let t := RunPersistentVolumeClaimRecycler example_world c "image" "ns" in
     outcome t
     = Fatal ("Could not create NFS recycler pod from file /etc/origin/two-volumes.yaml: "
              +:+ "Recycler pod is expected to have exactly 1 volume to scrub, but found 2")
     ∧ last (loaded t) = Some "/etc/origin/two-volumes.yaml").
Proof.
  split.
  - intros c t.
    apply (X15_unusable_template_file_is_fatal example_world c "image" "ns"
             _ _ "open /etc/origin/missing.yaml: no such file or directory" eq_refl).
    + simpl. lia.
    + left. reflexivity.
  - intros c t.
    apply (X15_unusable_template_file_is_fatal example_world c "image" "ns"
             _ _ "Recycler pod is expected to have exactly 1 volume to scrub, but found 2"
             eq_refl).
    + left. reflexivity.
    + simpl. lia.
    + right. eexists. split; [reflexivity|]. split; [simpl; lia|reflexivity].
Defined.

(** X16: [InstallAPI] returns the error of [master.New] and no message when
    the master cannot be built; otherwise it returns no error and one
    message for each API version the options enable, version 1 before the
    extensions.  Each message is itself a format with a single [%s]:
    formatted with an address it reads [Started Kubernetes API at] or
    [Started Kubernetes API Extensions at], the address, and the prefix of
    the API. *)
Theorem X16_InstallAPI_messages_are_formats (masterNew : option error)
    (hasV1 hasExtV1beta1 : bool) (address : string) :
  let r := InstallAPI masterNew hasV1 hasExtV1beta1 in
  r.2 = masterNew
  ∧ match masterNew with
    | Some _ => r.1 = []
    | None =>
        (λ message, Sprintf message [address]) <$> r.1
        = ((if hasV1
            then ["Started Kubernetes API at " +:+ address +:+ "/api/v1"]
            else [])
           ++ (if hasExtV1beta1
               then ["Started Kubernetes API Extensions at " +:+ address
                     +:+ "/apis/extensions/v1beta1"]
               else []))%list
        ∧ length r.1 = ((if hasV1 then 1 else 0) + (if hasExtV1beta1 then 1 else 0))%nat
    end.
Proof.
  destruct masterNew as [err|]; [by split|].
  destruct hasV1, hasExtV1beta1; simpl; repeat split; reflexivity.
Qed.
End master_facts.

(** * The recycler scripts *)

Module recycler_facts.
Import recycler.

(** X18: on a directory for which the mounts of the system show no NFS
    version 4 line, the script of the origin image ends at that lookup: it
    exits with the non-zero status of the lookup, says nothing, and has run
    no other command, so nothing was removed. *)
Theorem X18_nfs_recycler_stops_off_nfs4 (sys : System) (name dir : string)
    (st : nat) (out : string) :
  isDir sys dir = true →
  exec sys [] (GrepNfs4 dir) = (st, out) →
  st ≠ 0%nat →
  nfs_recycler sys name [dir] = mkRun st [] [] [GrepNfs4 dir].
Proof.
  intros Hdir Hgrep Hst. unfold nfs_recycler, checked. rewrite Hdir, Hgrep.
  rewrite decide_True by exact Hst. reflexivity.
Qed.
(** The same on a system where the directory is a local one. *)
Lemma X18_nfs_recycler_stops_off_nfs4_witness :
  nfs_recycler local_system "recycler.sh" ["/scrub"]
  = mkRun 1 [] [] [GrepNfs4 "/scrub"].
Proof.
  apply (X18_nfs_recycler_stops_off_nfs4 local_system "recycler.sh" "/scrub"
           1 EmptyString).
  - reflexivity.
  - reflexivity.
  - lia.
Defined.


End recycler_facts.
